(** * Release-notes tooling of KAI-Scheduler: a shallow embedding

    The development embeds the pure text-processing functions of
    [.github/scripts/release-notes.py] and [.github/scripts/update-changelog.py]
    and states their properties.

    Conventions of the embedding.
    - A Python [str] is the list of its code points.  The embedding covers
      code points 0..255, one [ascii] per code point; the whitespace class
      ([str.strip], [\s]) and the case mappings are those of Python on this
      range.
    - A regular expression is embedded as a matcher that, applied to the text
      that starts at the current position, returns what the backtracking
      engine returns there; [re.sub], [re.search] and [re.finditer] are the
      left-to-right drivers over such a matcher.
    - A [dict] is an association list in insertion order, since the scripts
      iterate over their dictionaries.
    - File reads and writes, [sys.argv] and exit codes stay outside: each
      function takes the text it would have read and returns the text it
      would have written. *)

From Stdlib Require Import List Ascii String Bool Arith ZArith Lia.
From Stdlib Require Import DecimalString DecimalZ Sorted.
Import ListNotations.

Open Scope string_scope.
Open Scope nat_scope.
Open Scope list_scope.

Set Implicit Arguments.

(** ** Text: Python strings and the string methods the scripts call *)

Module Text.

Definition str := list ascii.

Definition lit (s : string) : str := list_ascii_of_string s.

Definition nl : ascii := "010"%char.

(** [str.isspace] on one character, which is also the class [\s] of [re]
    for [str] patterns: TAB..CR, FS..US, space, NEL and NBSP. *)
Definition isspace (c : ascii) : bool :=
  let n := nat_of_ascii c in
  ((9 <=? n) && (n <=? 13)) || ((28 <=? n) && (n <=? 32))
  || (n =? 133) || (n =? 160).

(** [\d]: the decimal digits. *)
Definition isdigit (c : ascii) : bool :=
  let n := nat_of_ascii c in (48 <=? n) && (n <=? 57).

Definition is_nl (c : ascii) : bool := Ascii.eqb c nl.

(** [not s] for a string or a list. *)
Definition is_empty (A : Type) (s : list A) : bool :=
  match s with [] => true | _ :: _ => false end.

Fixpoint str_eqb (a b : str) : bool :=
  match a, b with
  | [], [] => true
  | x :: a', y :: b' => Ascii.eqb x y && str_eqb a' b'
  | _, _ => false
  end.

(** [s.lstrip()], [s.rstrip()] and [s.strip()]. *)
Fixpoint lstrip (s : str) : str :=
  match s with
  | [] => []
  | c :: t => if isspace c then lstrip t else s
  end.

Fixpoint rstrip (s : str) : str :=
  match s with
  | [] => []
  | c :: t =>
      match rstrip t with
      | [] => if isspace c then [] else [c]
      | t' => c :: t'
      end
  end.

Definition strip (s : str) : str := rstrip (lstrip s).

(** [s.split('\n')]: never empty, [''.split('\n') == ['']]. *)
Fixpoint split_nl (s : str) : list str :=
  match s with
  | [] => [[]]
  | c :: t =>
      if is_nl c then [] :: split_nl t
      else match split_nl t with
           | l :: ls => (c :: l) :: ls
           | [] => [[c]]
           end
  end.

(** [sep.join(ls)]. *)
Fixpoint join (sep : str) (ls : list str) : str :=
  match ls with
  | [] => []
  | l :: ls' =>
      match ls' with
      | [] => l
      | _ :: _ => l ++ sep ++ join sep ls'
      end
  end.

(** [s.startswith(p)], returning the rest of [s] after [p]. *)
Fixpoint strip_prefix (p s : str) : option str :=
  match p, s with
  | [], _ => Some s
  | x :: p', y :: s' => if Ascii.eqb x y then strip_prefix p' s' else None
  | _ :: _, [] => None
  end.

Definition startswith (p s : str) : bool :=
  match strip_prefix p s with Some _ => true | None => false end.

(** [s.find(p)]: offset of the first occurrence of [p] in [s]. *)
Fixpoint find (p s : str) : option nat :=
  if startswith p s then Some 0
  else match s with
       | [] => None
       | _ :: t => option_map S (find p t)
       end.

(** [p in s]. *)
Definition contains (p s : str) : bool :=
  match find p s with Some _ => true | None => false end.

(** The longest prefix of characters in a class, and what follows it. *)
Fixpoint span (f : ascii -> bool) (s : str) : str * str :=
  match s with
  | [] => ([], [])
  | c :: t => if f c then let (w, r) := span f t in (c :: w, r) else ([], s)
  end.

(** Offset of the last newline of [w]. *)
Fixpoint last_nl (w : str) : option nat :=
  match w with
  | [] => None
  | c :: t =>
      match last_nl t with
      | Some i => Some (S i)
      | None => if is_nl c then Some 0 else None
      end
  end.

(** [re.sub(pattern, repl, s)] for a pattern that matches no empty string:
    [m] gives the length of the match that starts at the current position,
    [skip] counts the characters of the current match still to be dropped. *)
Fixpoint re_sub (m : str -> option nat) (repl : str) (skip : nat) (s : str)
  : str :=
  match s with
  | [] => []
  | c :: t =>
      match skip with
      | S k => re_sub m repl k t
      | O =>
          match m s with
          | Some (S k) => repl ++ re_sub m repl k t
          | _ => c :: re_sub m repl 0 t
          end
      end
  end.

(** [re.search(pattern, s)]: start and end offsets of the leftmost match;
    [pos] is the offset of the current position. *)
Fixpoint re_search (m : str -> option nat) (pos : nat) (s : str)
  : option (nat * nat) :=
  match m s with
  | Some n => Some (pos, pos + n)
  | None =>
      match s with
      | [] => None
      | _ :: t => re_search m (S pos) t
      end
  end.

(** [re.finditer(pattern, s)] for a pattern with one group that matches no
    empty string: the start offset and the group of every match, leftmost
    first, no two overlapping. *)
Fixpoint finditer (m : str -> option (nat * str)) (pos skip : nat) (s : str)
  : list (nat * str) :=
  match s with
  | [] => []
  | _ :: t =>
      match skip with
      | S k => finditer m (S pos) k t
      | O =>
          match m s with
          | Some (S k, g) => (pos, g) :: finditer m (S pos) k t
          | _ => finditer m (S pos) 0 t
          end
      end
  end.

(** [str.lower] on one character, as [re.IGNORECASE] compares characters. *)
Definition tolower (c : ascii) : ascii :=
  let n := nat_of_ascii c in
  if ((65 <=? n) && (n <=? 90))
     || ((192 <=? n) && (n <=? 222) && negb (n =? 215))
  then ascii_of_nat (n + 32) else c.

(** A literal under [re.IGNORECASE]; [p] is given in lower case. *)
Fixpoint strip_iprefix (p s : str) : option str :=
  match p, s with
  | [], _ => Some s
  | x :: p', y :: s' =>
      if Ascii.eqb x (tolower y) then strip_iprefix p' s' else None
  | _ :: _, [] => None
  end.

(** [str.upper] on one character, as code points: it leaves the range for
    the micro sign and y with diaeresis, and the sharp s becomes two
    characters. *)
Definition upper_char (c : ascii) : list N :=
  let n := N_of_ascii c in
  (if ((97 <=? n) && (n <=? 122))
      || ((224 <=? n) && (n <=? 254) && negb (n =? 247))
   then [n - 32]
   else if n =? 181 then [924]
   else if n =? 223 then [83; 83]
   else if n =? 255 then [376]
   else [n])%N.

Definition upper (s : str) : list N := flat_map upper_char s.

Definition code_points (s : str) : list N := map N_of_ascii s.

(** [str(n)] for an [int]. *)
Definition str_of_int (n : Z) : str :=
  lit (NilEmpty.string_of_int (Z.to_int n)).

(** [s.lstrip(ch)] for a single character [ch]. *)
Fixpoint lstrip_char (ch : ascii) (s : str) : str :=
  match s with
  | [] => []
  | c :: t => if Ascii.eqb c ch then lstrip_char ch t else s
  end.

(** ** Dictionaries with [str] keys and list values, in insertion order *)

Definition dict := list (str * list str).

Fixpoint dict_get (k : str) (d : dict) : option (list str) :=
  match d with
  | [] => None
  | (k', v) :: d' => if str_eqb k k' then Some v else dict_get k d'
  end.

Definition dict_mem (k : str) (d : dict) : bool :=
  match dict_get k d with Some _ => true | None => false end.

(** [if k not in d: d[k] = []] *)
Definition dict_setdefault (k : str) (d : dict) : dict :=
  if dict_mem k d then d else d ++ [(k, [])].

(** [d[k] = f(d[k])] for a key that is present; the scripts index only
    keys they have set. *)
Fixpoint dict_update (k : str) (f : list str -> list str) (d : dict) : dict :=
  match d with
  | [] => []
  | (k', v) :: d' =>
      if str_eqb k k' then (k', f v) :: d' else (k', v) :: dict_update k f d'
  end.

(** Text written as its lines. *)
Definition text (ls : list string) : str := join [nl] (map lit ls).

End Text.

Import Text.

(** ** release-notes.py *)

Module ReleaseNotes.

(** [<!--.*?-->] with [re.DOTALL]: the opening mark, then the shortest text
    up to the first closing mark. *)
Definition match_comment (s : str) : option nat :=
  match strip_prefix (lit "<!--") s with
  | None => None
  | Some r => option_map (fun i => 4 + i + 3) (find (lit "-->") r)
  end.

(** [\n\s*\n]: a newline, then the longest run of whitespace, given back
    down to its last newline. *)
Definition match_blank (s : str) : option nat :=
  match s with
  | [] => None
  | c :: t =>
      if is_nl c
      then option_map (fun i => 1 + i + 1) (last_nl (fst (span isspace t)))
      else None
  end.

Definition remove_comments (content : str) : str :=
  re_sub match_comment [] 0 content.

Definition strip_lines (content : str) : str :=
  join [nl] (map strip (split_nl content)).

Definition collapse_newlines (content : str) : str :=
  re_sub match_blank [nl] 0 content.

Definition clean_content (content : str) : str :=
  let content := remove_comments content in
  let content := strip_lines content in
  let content := collapse_newlines content in
  strip content.

(** [is_opt_out] *)
Definition is_opt_out (content : str) : bool :=
  let cleaned := clean_content content in
  if list_eq_dec N.eq_dec (upper cleaned) (code_points (lit "NONE"))
  then true else false.

(** *** [extract_release_notes_section] *)

(** [\s+]: the longest run of whitespace, which must not be empty.  What
    follows it in the patterns below starts with a character that is not
    whitespace or accepts every position, so the engine never gives a
    character of the run back. *)
Definition ws_plus (s : str) : option (str * str) :=
  match span isspace s with
  | ([], _) => None
  | (c :: w, r) => Some (c :: w, r)
  end.

(** The lookahead [^##\s] in multiline mode; [bol] tells whether the
    position is at the start of a line. *)
Definition at_level2_heading (bol : bool) (s : str) : bool :=
  bol &&
  match strip_prefix (lit "##") s with
  | Some (c :: _) => isspace c
  | _ => false
  end.

(** [([\s\S]*?)(?=^##\s|\Z)]: the shortest text up to the next level-2
    heading line or the end of the text. *)
Fixpoint section_body (bol : bool) (s : str) : str :=
  if at_level2_heading bol s then []
  else match s with
       | [] => []
       | c :: t => c :: section_body (is_nl c) t
       end.

(** [##\s+Release\s+Notes\s+([\s\S]*?)(?=^##\s|\Z)] with [re.IGNORECASE],
    tried at a position that is at the start of a line: group 1. *)
Definition match_release_notes (s : str) : option str :=
  match strip_prefix (lit "##") s with
  | None => None
  | Some s1 =>
  match ws_plus s1 with
  | None => None
  | Some (_, s2) =>
  match strip_iprefix (lit "release") s2 with
  | None => None
  | Some s3 =>
  match ws_plus s3 with
  | None => None
  | Some (_, s4) =>
  match strip_iprefix (lit "notes") s4 with
  | None => None
  | Some s5 =>
  match ws_plus s5 with
  | None => None
  | Some (w, s6) => Some (section_body (is_nl (last w nl)) s6)
  end end end end end end.

(** [re.search] of the pattern above: [^] of multiline mode holds at the
    start of the text and after each newline. *)
Fixpoint search_release_notes (bol : bool) (s : str) : option str :=
  match (if bol then match_release_notes s else None) with
  | Some g => Some g
  | None =>
      match s with
      | [] => None
      | c :: t => search_release_notes (is_nl c) t
      end
  end.

Definition extract_release_notes_section (pr_body : str) : option str :=
  if is_empty pr_body then None
  else option_map strip (search_release_notes true pr_body).

(** *** [parse_release_notes] *)

Definition VALID_CATEGORIES : list str :=
  [lit "Added"; lit "Changed"; lit "Deprecated"; lit "Removed"; lit "Fixed";
   lit "Security"].

Definition is_valid_category (c : str) : bool :=
  existsb (str_eqb c) VALID_CATEGORIES.

(** [re.match(r'^###\s+(.+)$', line)], group 1, for a line without
    newline (the lines come from [split('\n')]).  When nothing follows the
    whitespace, [\s+] gives its last character back to [.+]. *)
Definition category_match (line : str) : option str :=
  match strip_prefix (lit "###") line with
  | None => None
  | Some r =>
      match span isspace r with
      | ([], _) => None
      | (_ :: _, c :: g) => Some (c :: g)
      | (_ :: c :: w, []) => Some [last (c :: w) c]
      | ([_], []) => None
      end
  end.

(** The state of the scan: the mapping built so far and the current
    category. *)
Definition parse_state := (dict * option str)%type.

(** One iteration of the loop over the lines. *)
Definition parse_line (st : parse_state) (line : str) : parse_state :=
  let (categories, current_category) := st in
  let line := strip line in
  if is_empty line then st
  else
    match category_match line with
    | Some g =>
        let category := strip g in
        if is_valid_category category
        then (dict_setdefault category categories, Some category)
        else (categories, None)
    | None =>
        if startswith (lit "-") line || startswith (lit "*") line
        then
          match current_category with
          | Some cur =>
              let entry := strip (tl line) in
              if is_empty entry then st
              else (dict_update cur (fun es => es ++ [entry]) categories,
                    current_category)
          | None => st
          end
        else st
    end.

Definition parse_lines (st : parse_state) (lines : list str) : parse_state :=
  fold_left parse_line lines st.

Definition parse_release_notes (content : str) : dict :=
  let cleaned := clean_content content in
  fst (parse_lines ([], None) (split_nl cleaned)).

(** *** [validate_release_notes] *)

Definition msg_not_found : str :=
  lit "Release Notes section not found in PR description".

Definition msg_opted_out : str := lit "Release notes opted out (NONE)".

Definition msg_no_category : str :=
  lit "Release notes must contain at least one valid category (Added, Changed, Deprecated, Removed, Fixed, Security) with entries, or 'NONE' to opt out".

Definition msg_valid : str := lit "Release notes are valid".

Definition empty_categories (categories : dict) : list str :=
  map fst (filter (fun ce => is_empty (snd ce)) categories).

Definition validate_release_notes (pr_body : str)
  : bool * str * option dict :=
  match extract_release_notes_section pr_body with
  | None => (false, msg_not_found, None)
  | Some release_notes =>
      if is_opt_out release_notes then (true, msg_opted_out, None)
      else
        let categories := parse_release_notes release_notes in
        if is_empty categories then (false, msg_no_category, None)
        else
          match empty_categories categories with
          | [] => (true, msg_valid, Some categories)
          | empty =>
              (false,
               lit "Categories " ++ join (lit ", ") empty
               ++ lit " have no entries",
               None)
          end
  end.

(** *** [format_changelog_from_prs] *)

Record PR : Type := {
  number : Z;
  url : str;
  author : str;
  author_url : str;
  body : str
}.

(** The entry with its attribution, unless it already names the PR. *)
Definition format_entry (pr : PR) (entry : str) : str :=
  if negb (contains (lit "#" ++ str_of_int (number pr)) entry)
     && negb (contains (url pr) entry)
  then entry ++ lit " [#" ++ str_of_int (number pr) ++ lit "](" ++ url pr
       ++ lit ") [" ++ author pr ++ lit "](" ++ author_url pr ++ lit ")"
  else entry.

(** [if formatted_entry not in l: l.append(formatted_entry)] *)
Definition append_new (formatted_entry : str) (l : list str) : list str :=
  if existsb (str_eqb formatted_entry) l then l else l ++ [formatted_entry].

Definition add_entry (pr : PR) (category : str) (all_categories : dict)
  (entry : str) : dict :=
  dict_update category (append_new (format_entry pr entry)) all_categories.

Definition add_category (pr : PR) (all_categories : dict)
  (ce : str * list str) : dict :=
  let (category, entries) := ce in
  fold_left (add_entry pr category) entries
    (dict_setdefault category all_categories).

(** One iteration of the loop over the PRs. *)
Definition collect_pr (all_categories : dict) (pr : PR) : dict :=
  match extract_release_notes_section (body pr) with
  | None => all_categories
  | Some release_notes =>
      if is_opt_out release_notes then all_categories
      else fold_left (add_category pr) (parse_release_notes release_notes)
             all_categories
  end.

Definition category_order : list str :=
  [lit "Added"; lit "Changed"; lit "Deprecated"; lit "Removed"; lit "Fixed";
   lit "Security"].

(** The lines appended for one category of [category_order]. *)
Definition category_lines (all_categories : dict) (category : str)
  : list str :=
  match dict_get category all_categories with
  | Some (e :: es) =>
      (lit "### " ++ category)
      :: map (fun entry => lit "- " ++ entry) (e :: es) ++ [[]]
  | _ => []
  end.

Definition changelog_lines (all_categories : dict) : list str :=
  flat_map (category_lines all_categories) category_order.

Definition render (all_categories : dict) : str :=
  strip (join [nl] (changelog_lines all_categories)).

(** The function after [json.load]: [prs] is the list read from the file. *)
Definition format_changelog_from_prs (prs : list PR) : str :=
  render (fold_left collect_pr prs []).

End ReleaseNotes.

Import ReleaseNotes.


(** ** update-changelog.py *)

Module Changelog.

(** [## \[([^\]]+)\] - \d{4}-\d{2}-\d{2}]: length of the match and group 1.
    The group is the longest run of characters other than the closing
    bracket; what follows must be that bracket. *)
Definition is_not_bracket (c : ascii) : bool := negb (Ascii.eqb c "]"%char).

Fixpoint strip_digits (n : nat) (s : str) : option str :=
  match n with
  | O => Some s
  | S n' =>
      match s with
      | c :: t => if isdigit c then strip_digits n' t else None
      | [] => None
      end
  end.

Definition strip_date (s : str) : option str :=
  match strip_digits 4 s with
  | None => None
  | Some s1 =>
  match strip_prefix (lit "-") s1 with
  | None => None
  | Some s2 =>
  match strip_digits 2 s2 with
  | None => None
  | Some s3 =>
  match strip_prefix (lit "-") s3 with
  | None => None
  | Some s4 => strip_digits 2 s4
  end end end end.

Definition match_version_header (s : str) : option (nat * str) :=
  match strip_prefix (lit "## [") s with
  | None => None
  | Some r =>
      match span is_not_bracket r with
      | ([], _) => None
      | (c :: g, r1) =>
          match strip_prefix (lit "] - ") r1 with
          | None => None
          | Some r2 =>
              match strip_date r2 with
              | None => None
              | Some _ => Some (4 + List.length (c :: g) + 4 + 10, c :: g)
              end
          end
      end
  end.

(** [## \[Unreleased\]\s*\n]: length of the match; the whitespace run is
    given back down to its last newline. *)
Definition match_unreleased (s : str) : option nat :=
  match strip_prefix (lit "## [Unreleased]") s with
  | None => None
  | Some r => option_map (fun i => 15 + i + 1) (last_nl (fst (span isspace r)))
  end.

Definition version_matches (content : str) : list (nat * str) :=
  finditer match_version_header 0 0 content.

Definition unreleased_match (content : str) : option (nat * nat) :=
  re_search match_unreleased 0 content.

Definition search_start (content : str) : nat :=
  match unreleased_match content with
  | Some (_, e) => e
  | None => 0
  end.

Definition new_section (version date changelog_entries : str) : str :=
  lit "## [" ++ version ++ lit "] - " ++ date ++ [nl; nl]
  ++ changelog_entries ++ [nl; nl].

(** [content[:i] + piece + content[i:]] *)
Definition splice (content : str) (i : nat) (piece : str) : str :=
  firstn i content ++ piece ++ skipn i content.

Section Inserter.

(** [packaging.version.Version] is a library outside the repository: its
    constructor, with [None] where it raises [InvalidVersion], and its
    order are parameters. *)
Variable Version : Type.
Variable parse_version : str -> option Version.
Variable version_gt : Version -> Version -> bool.

(** The loop over the matches: [continue] goes on with the rest, [break]
    returns the position. *)
Fixpoint find_insert_position (new_version_obj : Version) (start : nat)
  (matches : list (nat * str)) : option nat :=
  match matches with
  | [] => None
  | (match_start, existing_version_str) :: rest =>
      if match_start <? start
      then find_insert_position new_version_obj start rest
      else
        match parse_version (lstrip_char "v" existing_version_str) with
        | Some existing_version_obj =>
            if version_gt new_version_obj existing_version_obj
            then Some match_start
            else find_insert_position new_version_obj start rest
        | None => find_insert_position new_version_obj start rest
        end
  end.

Definition insert_position (content : str) (new_version_obj : Version)
  : option nat :=
  find_insert_position new_version_obj (search_start content)
    (version_matches content).

(** The text written back to the changelog, or [None] when the new version
    does not parse and the function raises. *)
Definition update_changelog (content version date entries : str)
  : option str :=
  let changelog_entries := strip entries in
  let section := new_section version date changelog_entries in
  match parse_version (lstrip_char "v" version) with
  | None => None
  | Some new_version_obj =>
      Some
        match insert_position content new_version_obj with
        | Some p => splice content p section
        | None =>
            match unreleased_match content with
            | Some (_, p) =>
                if negb (str_eqb (firstn 1 (skipn p content)) [nl])
                then splice content p (nl :: section)
                else splice content p section
            | None => section ++ content
            end
        end
  end.

End Inserter.

(** A version library to run the inserter on: plain release versions
    [N(.N)*], compared number by number with missing numbers read as zero.
    It stands for [packaging.version] on such versions only. *)
Module Release.

Fixpoint split_dot (s : str) : list str :=
  match s with
  | [] => [[]]
  | c :: t =>
      if Ascii.eqb c "."%char then [] :: split_dot t
      else match split_dot t with
           | l :: ls => (c :: l) :: ls
           | [] => [[c]]
           end
  end.

Fixpoint number_of (acc : N) (s : str) : option N :=
  match s with
  | [] => Some acc
  | c :: t =>
      if isdigit c
      then number_of (acc * 10 + (N_of_ascii c - 48))%N t
      else None
  end.

Definition segment (s : str) : option N :=
  match s with
  | [] => None
  | _ :: _ => number_of 0%N s
  end.

Fixpoint segments (l : list str) : option (list N) :=
  match l with
  | [] => Some []
  | s :: l' =>
      match segment s, segments l' with
      | Some n, Some ns => Some (n :: ns)
      | _, _ => None
      end
  end.

Definition parse (s : str) : option (list N) := segments (split_dot s).

Fixpoint gt (a b : list N) : bool :=
  match a, b with
  | [], _ => false
  | x :: a', [] => negb (N.eqb x 0) || gt a' []
  | x :: a', y :: b' => N.ltb y x || (N.eqb x y && gt a' b')
  end.

End Release.

End Changelog.

Import Changelog.

(** ** Vocabulary of the statements *)

Definition nonempty (l : str) : bool := negb (is_empty l).

Definition no_nl (l : str) : Prop := forallb (fun c => negb (is_nl c)) l = true.

(** A line as [strip_lines] leaves it: no newline, no whitespace at either
    end. *)
Definition is_line (l : str) : Prop :=
  no_nl l /\ lstrip l = l /\ rstrip l = l.

(** What [collapse_newlines] leaves of the lines after the first one: the
    empty ones go, except the last line. *)
Fixpoint squeeze_tail (ls : list str) : list str :=
  match ls with
  | [] => []
  | l :: ls' =>
      match ls' with
      | [] => [l]
      | _ :: _ => if is_empty l then squeeze_tail ls' else l :: squeeze_tail ls'
      end
  end.

(** Whether an HTML comment starts somewhere in the text. *)
Fixpoint has_comment (s : str) : bool :=
  match s with
  | [] => false
  | _ :: t =>
      match match_comment s with
      | Some _ => true
      | None => has_comment t
      end
  end.

(** The cleaner as the specification words it: a run of two or more blank
    lines becomes one blank line. *)
Fixpoint collapse_blank_runs (ls : list str) : list str :=
  match ls with
  | [] => []
  | l :: ls' =>
      match ls' with
      | [] => [l]
      | l' :: _ =>
          if is_empty l && is_empty l' then collapse_blank_runs ls'
          else l :: collapse_blank_runs ls'
      end
  end.

Definition clean_content_as_worded (content : str) : str :=
  strip
    (join [nl]
       (collapse_blank_runs (map strip (split_nl (remove_comments content))))).

(** The same letter in either case. *)
Definition same_letter (u c : ascii) : Prop := c = u \/ c = tolower u.

(** What the category parser takes a line for. *)
Definition heading_text (line : str) : option str :=
  option_map strip (category_match (strip line)).

Definition is_valid_heading (line : str) : bool :=
  match heading_text line with
  | Some category => is_valid_category category
  | None => false
  end.

Definition is_invalid_heading (line : str) : bool :=
  match heading_text line with
  | Some category => negb (is_valid_category category)
  | None => false
  end.

(** A text that is empty or ends with a newline: what stands before a
    line. *)
Definition ends_lines (s : str) : Prop := s = [] \/ exists s', s = s' ++ [nl].

(** The attribution suffix of a PR, and whether an entry already names the
    PR by its number token or its URL. *)
Definition attribution (pr : PR) : str :=
  lit " [#" ++ str_of_int (number pr) ++ lit "](" ++ url pr
  ++ lit ") [" ++ author pr ++ lit "](" ++ author_url pr ++ lit ")".

Definition names_pr (pr : PR) (entry : str) : bool :=
  contains (lit "#" ++ str_of_int (number pr)) entry
  || contains (url pr) entry.

(** A PR whose body is a release-notes section with one Fixed entry. *)
Definition pr_fixing (n : Z) (user entry : string) : PR :=
  {| number := n;
     url := lit "https://github.com/test/repo/pull/" ++ str_of_int n;
     author := lit user;
     author_url := lit "https://github.com/" ++ lit user;
     body := text ["## Release Notes"; "### Fixed"; String.append "- " entry] |}.

(** Whether a category has an entry in the collected mapping, and the
    text of its block: the heading, then one bullet line per entry. *)
Definition has_entries (all_categories : dict) (category : str) : bool :=
  match dict_get category all_categories with
  | Some (_ :: _) => true
  | _ => false
  end.

Definition entries_of (all_categories : dict) (category : str) : list str :=
  match dict_get category all_categories with
  | Some entries => entries
  | None => []
  end.

Definition block_lines (all_categories : dict) (category : str) : list str :=
  (lit "### " ++ category)
  :: map (fun entry => lit "- " ++ entry) (entries_of all_categories category).

Definition category_block (all_categories : dict) (category : str) : str :=
  join [nl] (block_lines all_categories category).

(** A text that is not empty and has no whitespace at its start, or at its
    end. *)
Definition tidy_start (s : str) : Prop := s <> [] /\ lstrip s = s.

Definition tidy_end (s : str) : Prop := s <> [] /\ rstrip s = s.

Definition tidy_dict (d : dict) : Prop :=
  Forall (fun ce => Forall tidy_end (snd ce)) d.

(** A header the inserter may put the new section above: it starts at or
    after the search start, its version parses and is lower than the new
    one. *)
Definition is_candidate (Version : Type)
  (parse_version : str -> option Version)
  (version_gt : Version -> Version -> bool)
  (new_version_obj : Version) (start : nat) (m : nat * str) : bool :=
  (start <=? fst m)
  && match parse_version (lstrip_char "v" (snd m)) with
     | Some existing_version_obj => version_gt new_version_obj existing_version_obj
     | None => false
     end.

(** Whether no position of the text is at a level-2 heading, reading from a
    position that is ([bol]) or is not at the start of a line. *)
Fixpoint no_level2_heading (bol : bool) (s : str) : bool :=
  negb (at_level2_heading bol s)
  && match s with
     | [] => true
     | c :: t => no_level2_heading (is_nl c) t
     end.


(** The keys of a mapping, in insertion order. *)
Definition keys (d : dict) : list str := map fst d.

(** An entry as the parser stores it: not empty, no whitespace at either
    end, no newline. *)
Definition entry_ok (e : str) : Prop := e <> [] /\ strip e = e /\ no_nl e.

Definition entries_ok (d : dict) : Prop :=
  Forall (fun ce => Forall entry_ok (snd ce)) d.


(** The lists of a mapping hold no entry twice. *)
Definition lists_nodup (d : dict) : Prop :=
  Forall (fun ce => NoDup (snd ce)) d.

(** Every list of [d] is within the list that [d'] has under the same
    key. *)
Definition dict_le (d d' : dict) : Prop :=
  forall c l, dict_get c d = Some l ->
              exists l', dict_get c d' = Some l' /\ incl l l'.

(** The mapping [d] already holds, under each category of [parsed], the
    lines that [pr] gives the entries of that category. *)
Definition covered (d : dict) (pr : PR) (parsed : dict) : Prop :=
  Forall
    (fun ce =>
       exists l, dict_get (fst ce) d = Some l
                 /\ Forall (fun e => In (format_entry pr e) l) (snd ce))
    parsed.


(** A date as the header pattern reads it: four digits, a hyphen, two
    digits, a hyphen, two digits. *)
Definition is_date (d : str) : bool :=
  match d with
  | [y1; y2; y3; y4; h1; m1; m2; h2; d1; d2] =>
      isdigit y1 && isdigit y2 && isdigit y3 && isdigit y4
      && Ascii.eqb h1 "-"%char
      && isdigit m1 && isdigit m2
      && Ascii.eqb h2 "-"%char
      && isdigit d1 && isdigit d2
  | _ => false
  end.

(** The text [x] starts with a version header [## [g] - date]: [g] is not
    empty and holds no closing bracket. *)
Definition header_at (x g : str) : Prop :=
  g <> [] /\ forallb is_not_bracket g = true
  /\ exists date rest,
       is_date date = true
       /\ x = lit "## [" ++ g ++ lit "] - " ++ date ++ rest.

(** Whitespace other than the newline. *)
Definition is_blank (c : ascii) : bool := isspace c && negb (is_nl c).

(** A text that does not start with a whitespace character. *)
Definition starts_no_space (v : str) : Prop :=
  match v with
  | [] => True
  | c :: _ => isspace c = false
  end.

(** The text [x] starts with the Unreleased heading, followed by the
    whitespace [w] that ends with a newline, and no newline stands in the
    whitespace that follows [w]: [w] is the whitespace behind the heading
    up to and including the last newline of the whitespace run. *)
Definition unreleased_at (x w : str) : Prop :=
  forallb isspace w = true /\ last w " "%char = nl
  /\ exists u v,
       x = lit "## [Unreleased]" ++ w ++ u ++ v
       /\ forallb is_blank u = true
       /\ starts_no_space v.


(** ** Facts about the string methods *)

Unset Implicit Arguments.

#[local] Arguments Ascii.eqb : simpl never.
#[local] Arguments isspace : simpl never.

Section TextFacts.

Lemma is_nl_true (c : ascii) : is_nl c = true -> c = nl.
Proof. unfold is_nl. apply Ascii.eqb_eq. Qed.

Lemma str_eqb_eq (a b : str) : str_eqb a b = true <-> a = b.
Proof.
  revert b. induction a as [|x a IH]; intros [|y b]; simpl;
    try (split; [discriminate | discriminate]); try tauto.
  rewrite andb_true_iff, Ascii.eqb_eq, IH.
  split; [intros [-> ->]; reflexivity | intros H; inversion H; auto].
Qed.

Lemma str_eqb_neq (a b : str) : str_eqb a b = false <-> a <> b.
Proof.
  split.
  - intros H E. apply str_eqb_eq in E. congruence.
  - intros H. destruct (str_eqb a b) eqn:E; [|reflexivity].
    apply str_eqb_eq in E. contradiction.
Qed.

(** *** Stripping *)

Lemma lstrip_idem (s : str) : lstrip (lstrip s) = lstrip s.
Proof.
  induction s as [|c t IH]; simpl; [reflexivity|].
  destruct (isspace c) eqn:E; [exact IH|]. simpl. rewrite E. reflexivity.
Qed.


Lemma rstrip_idem (s : str) : rstrip (rstrip s) = rstrip s.
Proof.
  induction s as [|c t IH]; simpl; [reflexivity|].
  destruct (rstrip t) as [|d t'] eqn:R.
  - destruct (isspace c) eqn:E; simpl; [reflexivity|]. rewrite E. reflexivity.
  - change (rstrip (c :: d :: t')) with
      (match rstrip (d :: t') with
       | [] => if isspace c then [] else [c]
       | x :: r => c :: x :: r
       end).
    rewrite IH. reflexivity.
Qed.

Lemma lstrip_rstrip (s : str) : lstrip (rstrip s) = rstrip (lstrip s).
Proof.
  induction s as [|c t IH]; simpl; [reflexivity|].
  destruct (isspace c) eqn:E.
  - rewrite <- IH. destruct (rstrip t); simpl; [reflexivity|].
    rewrite E. reflexivity.
  - simpl. destruct (rstrip t); simpl; rewrite E; reflexivity.
Qed.

Lemma strip_idem (s : str) : strip (strip s) = strip s.
Proof.
  unfold strip.
  rewrite (lstrip_rstrip (lstrip s)), lstrip_idem, rstrip_idem. reflexivity.
Qed.

Lemma lstrip_strip (s : str) : lstrip (strip s) = strip s.
Proof. unfold strip. rewrite lstrip_rstrip, lstrip_idem. reflexivity. Qed.

Lemma rstrip_strip (s : str) : rstrip (strip s) = strip s.
Proof. unfold strip. apply rstrip_idem. Qed.

Lemma lstrip_fixed_cons (c : ascii) (t : str) :
  lstrip (c :: t) = c :: t -> isspace c = false.
Proof.
  simpl. destruct (isspace c) eqn:E; [|reflexivity].
  intros H. exfalso.
  assert (L : forall u, List.length (lstrip u) <= List.length u).
  { induction u as [|d u IH]; simpl; [lia|].
    destruct (isspace d); simpl; lia. }
  specialize (L t). rewrite H in L. simpl in L. lia.
Qed.

Lemma lstrip_fixed_app (a b : str) :
  a <> [] -> lstrip a = a -> lstrip (a ++ b) = a ++ b.
Proof.
  destruct a as [|c t]; [congruence|]. intros _ H.
  apply lstrip_fixed_cons in H. simpl. rewrite H. reflexivity.
Qed.

Lemma rstrip_app (a b : str) :
  rstrip (a ++ b) =
  match rstrip b with [] => rstrip a | _ :: _ => a ++ rstrip b end.
Proof.
  induction a as [|c t IH]; simpl.
  - destruct (rstrip b); reflexivity.
  - rewrite IH. destruct (rstrip b) as [|d b'] eqn:R; [reflexivity|].
    destruct t; reflexivity.
Qed.

(** *** Lines *)

Lemma no_nl_cons (c : ascii) (l : str) :
  no_nl (c :: l) <-> is_nl c = false /\ no_nl l.
Proof.
  unfold no_nl. simpl. rewrite andb_true_iff, negb_true_iff. tauto.
Qed.

Lemma no_nl_lstrip (l : str) : no_nl l -> no_nl (lstrip l).
Proof.
  induction l as [|c t IH]; simpl; [auto|]. intros H.
  destruct (isspace c); [|exact H]. apply no_nl_cons in H. tauto.
Qed.

Lemma no_nl_rstrip (l : str) : no_nl l -> no_nl (rstrip l).
Proof.
  induction l as [|c t IH]; simpl; [auto|]. intros H.
  apply no_nl_cons in H. destruct H as [Hc Ht]. specialize (IH Ht).
  destruct (rstrip t) as [|d t'].
  - destruct (isspace c); [reflexivity|]. apply no_nl_cons. split; auto.
  - apply no_nl_cons. split; auto.
Qed.

Lemma split_nl_not_nil (s : str) : split_nl s <> [].
Proof.
  destruct s as [|c t]; simpl; [discriminate|].
  destruct (is_nl c); [discriminate|]. destruct (split_nl t); discriminate.
Qed.

Lemma split_nl_no_nl (s : str) : Forall no_nl (split_nl s).
Proof.
  induction s as [|c t IH]; simpl.
  - constructor; [reflexivity | constructor].
  - destruct (is_nl c) eqn:E.
    + constructor; [reflexivity | exact IH].
    + destruct (split_nl t) as [|l ls].
      * constructor; [|constructor]. apply no_nl_cons. split; [auto|reflexivity].
      * inversion IH; subst. constructor; [|assumption].
        apply no_nl_cons. split; assumption.
Qed.

Lemma join_split_nl (s : str) : join [nl] (split_nl s) = s.
Proof.
  induction s as [|c t IH]; simpl; [reflexivity|].
  destruct (is_nl c) eqn:E.
  - apply is_nl_true in E. subst c.
    pose proof (split_nl_not_nil t) as N.
    destruct (split_nl t) as [|l ls]; [congruence|].
    change (join [nl] ([] :: l :: ls)) with (nl :: join [nl] (l :: ls)).
    f_equal. exact IH.
  - pose proof (split_nl_not_nil t) as N.
    destruct (split_nl t) as [|l ls]; [congruence|].
    rewrite <- IH. destruct ls; reflexivity.
Qed.

Lemma split_nl_line (l : str) : no_nl l -> split_nl l = [l].
Proof.
  induction l as [|c t IH]; simpl; [reflexivity|]. intros H.
  apply no_nl_cons in H. destruct H as [Hc Ht].
  rewrite Hc, (IH Ht). reflexivity.
Qed.

Lemma split_nl_app (l r : str) :
  no_nl l -> split_nl (l ++ nl :: r) = l :: split_nl r.
Proof.
  induction l as [|c t IH]; simpl; [reflexivity|]. intros H.
  apply no_nl_cons in H. destruct H as [Hc Ht].
  rewrite Hc, (IH Ht). reflexivity.
Qed.

Lemma split_nl_join (ls : list str) :
  ls <> [] -> Forall no_nl ls -> split_nl (join [nl] ls) = ls.
Proof.
  induction ls as [|l ls IH]; [congruence|]. intros _ H.
  inversion H as [|? ? Hl Hls]; subst.
  destruct ls as [|l' ls'].
  - simpl. apply split_nl_line. exact Hl.
  - change (join [nl] (l :: l' :: ls')) with (l ++ nl :: join [nl] (l' :: ls')).
    rewrite split_nl_app by exact Hl. f_equal. apply IH; [discriminate|exact Hls].
Qed.

Lemma strip_is_line (l : str) : no_nl l -> is_line (strip l).
Proof.
  intros H. repeat split.
  - unfold strip. apply no_nl_rstrip, no_nl_lstrip, H.
  - apply lstrip_strip.
  - apply rstrip_strip.
Qed.

Lemma is_line_strip (l : str) : is_line l -> strip l = l.
Proof. intros (_ & L & R). unfold strip. rewrite L. exact R. Qed.

Lemma strip_lines_are_lines (s : str) :
  Forall is_line (map strip (split_nl s)).
Proof.
  apply Forall_map. eapply Forall_impl; [|apply split_nl_no_nl].
  intros l. apply strip_is_line.
Qed.

End TextFacts.

(** ** The content cleaner *)

Section CleanFacts.

Lemma squeeze_tail_not_nil (ls : list str) : ls <> [] -> squeeze_tail ls <> [].
Proof.
  induction ls as [|l ls IH]; [congruence|]. intros _.
  destruct ls as [|l' ls']; [discriminate|].
  change (squeeze_tail (l :: l' :: ls')) with
    (if is_empty l then squeeze_tail (l' :: ls') else l :: squeeze_tail (l' :: ls')).
  destruct (is_empty l); [apply IH|]; discriminate.
Qed.

Lemma collapse_line (l r : str) :
  no_nl l -> collapse_newlines (l ++ r) = l ++ collapse_newlines r.
Proof.
  unfold collapse_newlines.
  induction l as [|c t IH]; simpl; [reflexivity|]. intros H.
  apply no_nl_cons in H. destruct H as [Hc Ht].
  rewrite Hc. f_equal. apply IH, Ht.
Qed.

Lemma collapse_no_nl (l : str) : no_nl l -> collapse_newlines l = l.
Proof.
  intros H. rewrite <- (app_nil_r l) at 1.
  rewrite collapse_line by exact H. simpl. apply app_nil_r.
Qed.

(** Two newlines at the head are rewritten as one is. *)
Lemma collapse_nl_nl (r : str) :
  collapse_newlines (nl :: nl :: r) = collapse_newlines (nl :: r).
Proof.
  unfold collapse_newlines. simpl.
  destruct (span isspace r) as [w r'] eqn:S. simpl.
  destruct (last_nl w) as [i|]; reflexivity.
Qed.

Lemma collapse_nl_end : collapse_newlines [nl] = [nl].
Proof. reflexivity. Qed.

Lemma collapse_nl_char (c : ascii) (r : str) :
  isspace c = false ->
  collapse_newlines (nl :: c :: r) = nl :: collapse_newlines (c :: r).
Proof.
  intros H. unfold collapse_newlines.
  change (re_sub match_blank [nl] 0 (nl :: c :: r)) with
    (match match_blank (nl :: c :: r) with
     | Some (S k) => [nl] ++ re_sub match_blank [nl] k (c :: r)
     | _ => nl :: re_sub match_blank [nl] 0 (c :: r)
     end).
  unfold match_blank. simpl is_nl. cbv iota. simpl span. rewrite H.
  reflexivity.
Qed.

Lemma collapse_nl_line (l r : str) :
  is_line l -> l <> [] ->
  collapse_newlines (nl :: l ++ r) = nl :: l ++ collapse_newlines r.
Proof.
  intros (Hn & Hl & _) Hne. destruct l as [|c t]; [congruence|].
  pose proof (lstrip_fixed_cons _ _ Hl) as Hc.
  simpl app. rewrite collapse_nl_char by exact Hc.
  f_equal. apply (collapse_line (c :: t) r Hn).
Qed.

Lemma collapse_tail (ls : list str) :
  ls <> [] -> Forall is_line ls ->
  collapse_newlines (nl :: join [nl] ls) = nl :: join [nl] (squeeze_tail ls).
Proof.
  induction ls as [|l ls IH]; [congruence|]. intros _ H.
  inversion H as [|? ? Hl Hls]; subst.
  destruct ls as [|l' ls'].
  - simpl join. simpl squeeze_tail. destruct l as [|c t].
    + apply collapse_nl_end.
    + rewrite <- (app_nil_r (c :: t)) at 1.
      rewrite collapse_nl_line by (auto; discriminate).
      simpl. rewrite app_nil_r. reflexivity.
  - change (join [nl] (l :: l' :: ls')) with (l ++ nl :: join [nl] (l' :: ls')).
    change (squeeze_tail (l :: l' :: ls')) with
      (if is_empty l then squeeze_tail (l' :: ls')
       else l :: squeeze_tail (l' :: ls')).
    assert (N : l' :: ls' <> []) by discriminate.
    specialize (IH N Hls).
    destruct l as [|c t]; simpl is_empty; cbv iota.
    + simpl app. rewrite collapse_nl_nl. exact IH.
    + rewrite collapse_nl_line by (auto; discriminate).
      rewrite IH.
      pose proof (squeeze_tail_not_nil _ N) as N'.
      destruct (squeeze_tail (l' :: ls')) as [|q qs]; [congruence|].
      reflexivity.
Qed.

Lemma rstrip_tail (ls : list str) :
  ls <> [] -> Forall is_line ls ->
  rstrip (nl :: join [nl] (squeeze_tail ls)) =
  match filter nonempty ls with
  | [] => []
  | f :: fs => nl :: join [nl] (f :: fs)
  end.
Proof.
  induction ls as [|l ls IH]; [congruence|]. intros _ H.
  inversion H as [|? ? Hl Hls]; subst.
  destruct ls as [|l' ls'].
  - simpl squeeze_tail. simpl join.
    destruct Hl as (_ & _ & Hr).
    change (rstrip (nl :: l)) with
      (match rstrip l with [] => [] | x :: t => nl :: x :: t end).
    rewrite Hr. destruct l; reflexivity.
  - change (squeeze_tail (l :: l' :: ls')) with
      (if is_empty l then squeeze_tail (l' :: ls')
       else l :: squeeze_tail (l' :: ls')).
    assert (N : l' :: ls' <> []) by discriminate.
    specialize (IH N Hls).
    destruct l as [|c t].
    + simpl is_empty. cbv iota. exact IH.
    + simpl is_empty. cbv iota.
      change (filter nonempty ((c :: t) :: l' :: ls')) with
        ((c :: t) :: filter nonempty (l' :: ls')).
      pose proof (squeeze_tail_not_nil _ N) as N'.
      destruct (squeeze_tail (l' :: ls')) as [|q qs] eqn:Q; [congruence|].
      change (join [nl] ((c :: t) :: q :: qs)) with
        ((c :: t) ++ nl :: join [nl] (q :: qs)).
      destruct Hl as (_ & _ & Hr).
      change (rstrip (nl :: (c :: t) ++ nl :: join [nl] (q :: qs))) with
        (match rstrip ((c :: t) ++ nl :: join [nl] (q :: qs)) with
         | [] => []
         | x :: r => nl :: x :: r
         end).
      rewrite rstrip_app, IH, Hr.
      destruct (filter nonempty (l' :: ls')) as [|f fs]; reflexivity.
Qed.

(** The closed form of the last two steps on stripped lines. *)
Lemma strip_collapse_lines (ls : list str) :
  Forall is_line ls ->
  strip (collapse_newlines (join [nl] ls)) = join [nl] (filter nonempty ls).
Proof.
  intros H. destruct ls as [|l ls]; [reflexivity|].
  inversion H as [|? ? Hl Hls]; subst.
  unfold strip. rewrite <- lstrip_rstrip.
  destruct ls as [|l' ls'].
  - simpl join. destruct Hl as (Hn & Hle & Hr).
    rewrite collapse_no_nl by exact Hn. rewrite Hr, Hle.
    destruct l; reflexivity.
  - change (join [nl] (l :: l' :: ls')) with (l ++ nl :: join [nl] (l' :: ls')).
    assert (N : l' :: ls' <> []) by discriminate.
    pose proof Hl as (Hn & Hle & Hr).
    rewrite collapse_line by exact Hn.
    rewrite collapse_tail by assumption.
    rewrite rstrip_app, rstrip_tail by assumption. rewrite Hr.
    assert (HF : Forall is_line (filter nonempty (l' :: ls'))).
    { apply Forall_forall. intros x Hx. apply filter_In in Hx.
      rewrite Forall_forall in Hls. apply Hls, Hx. }
    assert (HN : Forall (fun x => x <> []) (filter nonempty (l' :: ls'))).
    { apply Forall_forall. intros x Hx. apply filter_In in Hx.
      destruct Hx as [_ Hx]. destruct x; [discriminate|discriminate]. }
    destruct l as [|c t].
    + change (filter nonempty ([] :: l' :: ls')) with
        (filter nonempty (l' :: ls')).
      destruct (filter nonempty (l' :: ls')) as [|f fs]; [reflexivity|].
      simpl app. inversion HF as [|? ? (_ & Hf & _) _]; subst.
      inversion HN as [|? ? Hfn _]; subst.
      change (lstrip (nl :: join [nl] (f :: fs))) with
        (lstrip (join [nl] (f :: fs))).
      destruct fs as [|f' fs']; [exact Hf|].
      change (join [nl] (f :: f' :: fs')) with (f ++ nl :: join [nl] (f' :: fs')).
      apply lstrip_fixed_app; assumption.
    + change (filter nonempty ((c :: t) :: l' :: ls')) with
        ((c :: t) :: filter nonempty (l' :: ls')).
      destruct (filter nonempty (l' :: ls')) as [|f fs]; [exact Hle|].
      change (join [nl] ((c :: t) :: f :: fs)) with
        ((c :: t) ++ nl :: join [nl] (f :: fs)).
      apply lstrip_fixed_app; [discriminate | exact Hle].
Qed.

(** [clean_content] joins the stripped lines of the text without its
    comments, leaving the empty ones out. *)
Lemma clean_content_lines (content : str) :
  clean_content content =
  join [nl]
    (filter nonempty (map strip (split_nl (remove_comments content)))).
Proof.
  unfold clean_content, strip_lines.
  apply strip_collapse_lines, strip_lines_are_lines.
Qed.

Lemma lstrip_length (s : str) : List.length (lstrip s) <= List.length s.
Proof.
  induction s as [|c t IH]; simpl; [lia|]. destruct (isspace c); simpl; lia.
Qed.

Lemma rstrip_length (s : str) : List.length (rstrip s) <= List.length s.
Proof.
  induction s as [|c t IH]; simpl; [lia|].
  destruct (rstrip t); [destruct (isspace c)|]; simpl in *; lia.
Qed.

Lemma strip_length (s : str) : List.length (strip s) <= List.length s.
Proof.
  unfold strip. pose proof (rstrip_length (lstrip s)).
  pose proof (lstrip_length s). lia.
Qed.

Lemma join_cons_length (l : str) (ls : list str) :
  List.length (join [nl] (l :: ls)) =
  List.length l + match ls with [] => 0 | _ :: _ => 1 + List.length (join [nl] ls) end.
Proof.
  destruct ls as [|l' ls']; simpl join; [lia|].
  rewrite length_app. simpl. lia.
Qed.

Lemma clean_lines_length (ls : list str) :
  List.length (join [nl] (filter nonempty (map strip ls)))
  <= List.length (join [nl] ls).
Proof.
  induction ls as [|l ls IH]; [simpl; lia|].
  rewrite join_cons_length. simpl map. simpl filter.
  pose proof (strip_length l) as Hl.
  destruct (nonempty (strip l)).
  - rewrite join_cons_length.
    destruct (filter nonempty (map strip ls)) as [|f fs] eqn:F.
    + lia.
    + destruct ls as [|l' ls']; [discriminate|]. lia.
  - destruct ls as [|l' ls']; [simpl in *; lia | lia].
Qed.

Lemma re_sub_comments_length (k : nat) (s : str) :
  List.length (re_sub match_comment [] k s) <= List.length s.
Proof.
  revert k. induction s as [|c t IH]; intros k; [simpl; lia|].
  destruct k as [|k].
  - change (re_sub match_comment [] 0 (c :: t)) with
      (match match_comment (c :: t) with
       | Some (S k) => [] ++ re_sub match_comment [] k t
       | _ => c :: re_sub match_comment [] 0 t
       end).
    destruct (match_comment (c :: t)) as [[|k]|]; simpl List.length.
    + specialize (IH 0). lia.
    + specialize (IH k). lia.
    + specialize (IH 0). lia.
  - simpl. specialize (IH k). lia.
Qed.

Lemma match_comment_positive (s : str) (n : nat) :
  match_comment s = Some n -> exists k, n = S k.
Proof.
  unfold match_comment.
  destruct (strip_prefix (lit "<!--") s) as [r|]; [|discriminate].
  destruct (find (lit "-->") r); simpl; [|discriminate].
  intros H. inversion H. eexists. reflexivity.
Qed.

Lemma remove_comments_shorter (s : str) :
  has_comment s = true ->
  List.length (remove_comments s) < List.length s.
Proof.
  unfold remove_comments. induction s as [|c t IH]; [discriminate|].
  intros H.
  change (re_sub match_comment [] 0 (c :: t)) with
    (match match_comment (c :: t) with
     | Some (S k) => [] ++ re_sub match_comment [] k t
     | _ => c :: re_sub match_comment [] 0 t
     end).
  change (has_comment (c :: t)) with
    (match match_comment (c :: t) with
     | Some _ => true
     | None => has_comment t
     end) in H.
  destruct (match_comment (c :: t)) as [n|] eqn:M.
  - destruct (match_comment_positive _ _ M) as [k ->].
    pose proof (re_sub_comments_length k t). simpl. lia.
  - specialize (IH H). simpl. lia.
Qed.

Lemma remove_comments_fixed (s : str) :
  has_comment s = false -> remove_comments s = s.
Proof.
  unfold remove_comments. induction s as [|c t IH]; [reflexivity|].
  intros H.
  change (has_comment (c :: t)) with
    (match match_comment (c :: t) with
     | Some _ => true
     | None => has_comment t
     end) in H.
  change (re_sub match_comment [] 0 (c :: t)) with
    (match match_comment (c :: t) with
     | Some (S k) => [] ++ re_sub match_comment [] k t
     | _ => c :: re_sub match_comment [] 0 t
     end).
  destruct (match_comment (c :: t)); [discriminate|].
  f_equal. apply IH, H.
Qed.

Lemma clean_content_length (s : str) :
  List.length (clean_content s) <= List.length (remove_comments s).
Proof.
  rewrite clean_content_lines.
  rewrite <- (join_split_nl (remove_comments s)) at 2.
  apply clean_lines_length.
Qed.

(** The lines of cleaned content. *)
Lemma clean_content_split (content : str) :
  clean_content content <> [] ->
  split_nl (clean_content content) =
  filter nonempty (map strip (split_nl (remove_comments content))).
Proof.
  rewrite clean_content_lines. intros H.
  apply split_nl_join.
  - intros E. rewrite E in H. apply H. reflexivity.
  - apply Forall_forall. intros x Hx. apply filter_In in Hx.
    destruct Hx as [Hx _].
    pose proof (strip_lines_are_lines (remove_comments content)) as HL.
    rewrite Forall_forall in HL. apply HL, Hx.
Qed.

Lemma filter_nonempty_lines_fixed (ls : list str) :
  Forall is_line ls ->
  filter nonempty (map strip (filter nonempty ls)) = filter nonempty ls.
Proof.
  induction ls as [|l ls IH]; [reflexivity|]. intros H.
  inversion H as [|? ? Hl Hls]; subst. simpl filter.
  destruct (nonempty l) eqn:E; [|apply IH, Hls].
  simpl map. simpl filter. rewrite (is_line_strip _ Hl), E.
  f_equal. apply IH, Hls.
Qed.

(** Cleaning is the identity on cleaned content that holds no comment. *)
Lemma clean_content_fixed (content : str) :
  has_comment (clean_content content) = false ->
  clean_content (clean_content content) = clean_content content.
Proof.
  intros H.
  rewrite (clean_content_lines (clean_content content)).
  rewrite (remove_comments_fixed _ H).
  destruct (clean_content content) as [|c t] eqn:E; [reflexivity|].
  rewrite <- E. rewrite clean_content_split by (rewrite E; discriminate).
  rewrite filter_nonempty_lines_fixed by apply strip_lines_are_lines.
  symmetry. apply clean_content_lines.
Qed.

Lemma no_double_newline (s : str) :
  forallb nonempty (tl (split_nl s)) = true -> contains [nl; nl] s = false.
Proof.
  unfold contains. induction s as [|c t IH]; [reflexivity|]. intros H.
  assert (T : forallb nonempty (tl (split_nl t)) = true).
  { simpl in H. destruct (is_nl c).
    - simpl in H. destruct (split_nl t); [reflexivity|].
      simpl in H. apply andb_true_iff in H. apply H.
    - destruct (split_nl t); [reflexivity | exact H]. }
  specialize (IH T).
  change (find [nl; nl] (c :: t)) with
    (if startswith [nl; nl] (c :: t) then Some 0
     else option_map S (find [nl; nl] t)).
  assert (P : startswith [nl; nl] (c :: t) = false).
  { unfold startswith. simpl. destruct (Ascii.eqb nl c) eqn:E; [|reflexivity].
    apply Ascii.eqb_eq in E. subst c. simpl in H.
    destruct t as [|d t']; [reflexivity|].
    destruct (Ascii.eqb nl d) eqn:E'; [|reflexivity].
    apply Ascii.eqb_eq in E'. subst d. simpl in H. discriminate. }
  rewrite P. destruct (find [nl; nl] t); [discriminate | reflexivity].
Qed.

Lemma forallb_filter_nonempty (ls : list str) :
  forallb nonempty (filter nonempty ls) = true.
Proof.
  induction ls as [|l ls IH]; [reflexivity|]. simpl.
  destruct (nonempty l) eqn:E; [simpl; rewrite E|]; exact IH.
Qed.

End CleanFacts.

(** ** The opt-out detector *)

Section OptOutFacts.

Lemma upper_char_cases (c : ascii) :
  upper_char c = [83%N; 83%N]
  \/ exists n, upper_char c = [n]
       /\ (n = 78%N -> same_letter "N" c)
       /\ (n = 79%N -> same_letter "O" c)
       /\ (n = 69%N -> same_letter "E" c).
Proof.
  destruct c as [[] [] [] [] [] [] [] []];
    first [ left; reflexivity
          | right; eexists; split; [reflexivity|];
            repeat split; intros H; first [ discriminate H
                                          | left; reflexivity
                                          | right; reflexivity ] ].
Qed.

Lemma upper_nil (s : str) : upper s = [] -> s = [].
Proof.
  destruct s as [|c t]; [reflexivity|]. unfold upper. simpl flat_map.
  destruct (upper_char_cases c) as [E | (n & E & _)]; rewrite E; discriminate.
Qed.

Lemma upper_head (s : str) (n : N) (r : list N) :
  upper s = n :: r -> n <> 83%N ->
  exists c t, s = c :: t /\ upper_char c = [n] /\ upper t = r
    /\ (n = 78%N -> same_letter "N" c)
    /\ (n = 79%N -> same_letter "O" c)
    /\ (n = 69%N -> same_letter "E" c).
Proof.
  destruct s as [|c t]; [discriminate|]. unfold upper. simpl flat_map.
  intros H Hn.
  destruct (upper_char_cases c) as [E | (m & E & H1 & H2 & H3)];
    rewrite E in H; simpl in H; inversion H; subst.
  - congruence.
  - exists c, t. repeat split; auto.
Qed.

(** The cleaned content upper-cases to [NONE] exactly when it is that word
    in some mix of cases. *)
Lemma upper_none (s : str) :
  upper s = code_points (lit "NONE") <-> Forall2 same_letter (lit "NONE") s.
Proof.
  split.
  - intros H. change (code_points (lit "NONE")) with [78%N; 79%N; 78%N; 69%N] in H.
    apply upper_head in H; [|discriminate].
    destruct H as (c1 & t1 & -> & _ & H & L1 & _ & _).
    apply upper_head in H; [|discriminate].
    destruct H as (c2 & t2 & -> & _ & H & _ & L2 & _).
    apply upper_head in H; [|discriminate].
    destruct H as (c3 & t3 & -> & _ & H & L3 & _ & _).
    apply upper_head in H; [|discriminate].
    destruct H as (c4 & t4 & -> & _ & H & _ & _ & L4).
    apply upper_nil in H. subst t4.
    constructor; [apply L1; reflexivity|].
    constructor; [apply L2; reflexivity|].
    constructor; [apply L3; reflexivity|].
    constructor; [apply L4; reflexivity|].
    constructor.
  - intros H.
    inversion H as [|? c1 ? t1 L1 H1]; subst.
    inversion H1 as [|? c2 ? t2 L2 H2]; subst.
    inversion H2 as [|? c3 ? t3 L3 H3]; subst.
    inversion H3 as [|? c4 ? t4 L4 H4]; subst.
    inversion H4; subst.
    destruct L1 as [-> | ->], L2 as [-> | ->], L3 as [-> | ->],
      L4 as [-> | ->]; reflexivity.
Qed.

Lemma is_opt_out_true (content : str) :
  is_opt_out content = true
  <-> Forall2 same_letter (lit "NONE") (clean_content content).
Proof.
  unfold is_opt_out. rewrite <- upper_none.
  destruct (list_eq_dec N.eq_dec (upper (clean_content content))
              (code_points (lit "NONE"))); split; congruence.
Qed.

(** Opted-out notes hold no category. *)
Lemma opt_out_parses_empty (content : str) :
  is_opt_out content = true -> parse_release_notes content = [].
Proof.
  intros H. apply is_opt_out_true in H. unfold parse_release_notes.
  inversion H as [|? c1 ? t1 L1 H1 E1 E]; subst.
  inversion H1 as [|? c2 ? t2 L2 H2]; subst.
  inversion H2 as [|? c3 ? t3 L3 H3]; subst.
  inversion H3 as [|? c4 ? t4 L4 H4]; subst.
  inversion H4; subst.
  destruct L1 as [-> | ->], L2 as [-> | ->], L3 as [-> | ->],
    L4 as [-> | ->]; reflexivity.
Qed.

End OptOutFacts.

(** ** The category parser *)

Section ParserFacts.

(** An invalid heading leaves the mapping alone and resets the current
    category. *)
Lemma parse_line_invalid_heading (categories : dict) (cur : option str)
  (line : str) :
  is_invalid_heading line = true ->
  parse_line (categories, cur) line = (categories, None).
Proof.
  unfold is_invalid_heading, heading_text, parse_line.
  destruct (strip line) as [|c t] eqn:E; [discriminate|].
  simpl is_empty. cbv iota.
  destruct (category_match (c :: t)) as [g|]; [|discriminate].
  simpl option_map. cbv iota beta.
  destruct (is_valid_category (strip g)); [discriminate | reflexivity].
Qed.

(** Without a current category, a line that is no valid heading changes
    nothing. *)
Lemma parse_line_no_category (categories : dict) (line : str) :
  is_valid_heading line = false ->
  parse_line (categories, None) line = (categories, None).
Proof.
  unfold is_valid_heading, heading_text, parse_line.
  destruct (strip line) as [|c t] eqn:E; [reflexivity|].
  simpl is_empty. cbv iota.
  destruct (category_match (c :: t)) as [g|].
  - simpl option_map. cbv iota beta.
    intros H. rewrite H. reflexivity.
  - intros _.
    destruct (startswith (lit "-") (c :: t) || startswith (lit "*") (c :: t));
      reflexivity.
Qed.

Lemma parse_lines_no_category (categories : dict) (lines : list str) :
  Forall (fun l => is_valid_heading l = false) lines ->
  parse_lines (categories, None) lines = (categories, None).
Proof.
  unfold parse_lines. induction lines as [|l ls IH]; [reflexivity|].
  intros H. inversion H as [|? ? Hl Hls]; subst. cbn [fold_left].
  rewrite parse_line_no_category by exact Hl. apply IH, Hls.
Qed.

Lemma parse_lines_app (st : parse_state) (a b : list str) :
  parse_lines st (a ++ b) = parse_lines (parse_lines st a) b.
Proof. apply fold_left_app. Qed.

Lemma parse_lines_invalid_zone (st : parse_state) (h : str) (mid : list str) :
  is_invalid_heading h = true ->
  Forall (fun l => is_valid_heading l = false) mid ->
  parse_lines st (h :: mid) = (fst st, None).
Proof.
  intros Hh Hm. destruct st as [categories cur].
  change (parse_lines (categories, cur) (h :: mid)) with
    (parse_lines (parse_line (categories, cur) h) mid).
  rewrite parse_line_invalid_heading by exact Hh.
  apply parse_lines_no_category, Hm.
Qed.

End ParserFacts.

(** ** The section extractor *)

Section ExtractorFacts.

Lemma ends_lines_tail (c : ascii) (t : str) :
  ends_lines (c :: t) -> ends_lines t /\ (t = [] -> c = nl).
Proof.
  intros [H | [s' H]]; [discriminate|].
  destruct s' as [|d s']; simpl in H; inversion H; subst.
  - split; [left; reflexivity | reflexivity].
  - split; [right; exists s'; reflexivity|].
    intros E. destruct s'; discriminate.
Qed.

(** What follows the text starts with a character that is no whitespace:
    the whitespace run stops there at the latest. *)
Lemma ws_plus_app (s x : str) (h : ascii) :
  isspace h = false ->
  ws_plus (s ++ h :: x) =
  option_map (fun wr => (fst wr, snd wr ++ h :: x)) (ws_plus s).
Proof.
  intros Hh. unfold ws_plus.
  assert (S : span isspace (s ++ h :: x) =
              (fst (span isspace s), snd (span isspace s) ++ h :: x)).
  { induction s as [|c t IH]; simpl.
    - rewrite Hh. reflexivity.
    - destruct (isspace c); [|reflexivity].
      rewrite IH. destruct (span isspace t). reflexivity. }
  rewrite S. destruct (span isspace s) as [[|c w] r]; reflexivity.
Qed.

(** A literal none of whose characters is [h] in either case does not go
    on across [h]. *)
Lemma strip_iprefix_app (p s x : str) (h : ascii) :
  p <> [] ->
  Forall (fun c => Ascii.eqb c (tolower h) = false) p ->
  strip_iprefix p (s ++ h :: x) =
  option_map (fun r => r ++ h :: x) (strip_iprefix p s).
Proof.
  revert s. induction p as [|c p IH]; [congruence|]. intros s _ H.
  inversion H as [|? ? Hc Hp]; subst.
  destruct s as [|y s].
  - simpl. rewrite Hc. reflexivity.
  - simpl. destruct (Ascii.eqb c (tolower y)); [|reflexivity].
    destruct p as [|c' p']; [reflexivity|].
    apply IH; [discriminate | exact Hp].
Qed.

Lemma match_release_notes_app (c d : ascii) (t x : str) :
  match_release_notes (c :: d :: t) = None ->
  match_release_notes ((c :: d :: t) ++ "#"%char :: x) = None.
Proof.
  unfold match_release_notes.
  change (strip_prefix (lit "##") ((c :: d :: t) ++ "#"%char :: x)) with
    (if Ascii.eqb "#" c
     then if Ascii.eqb "#" d then Some (t ++ "#"%char :: x) else None
     else None).
  change (strip_prefix (lit "##") (c :: d :: t)) with
    (if Ascii.eqb "#" c
     then if Ascii.eqb "#" d then Some t else None
     else None).
  destruct (Ascii.eqb "#" c); [|reflexivity].
  destruct (Ascii.eqb "#" d); [|reflexivity].
  rewrite ws_plus_app by reflexivity.
  destruct (ws_plus t) as [[w1 s2]|]; [|reflexivity].
  simpl option_map. cbv iota beta. simpl snd.
  rewrite strip_iprefix_app by (try discriminate; repeat constructor).
  destruct (strip_iprefix (lit "release") s2) as [s3|]; [|reflexivity].
  simpl option_map. cbv iota beta.
  rewrite ws_plus_app by reflexivity.
  destruct (ws_plus s3) as [[w2 s4]|]; [|reflexivity].
  simpl option_map. cbv iota beta. simpl snd.
  rewrite strip_iprefix_app by (try discriminate; repeat constructor).
  destruct (strip_iprefix (lit "notes") s4) as [s5|]; [|reflexivity].
  simpl option_map. cbv iota beta.
  rewrite ws_plus_app by reflexivity.
  destruct (ws_plus s5) as [[w3 s6]|]; [discriminate | reflexivity].
Qed.

(** Where the search finds nothing in lines [s], it goes on at the start
    of the line that follows them. *)
Lemma search_release_notes_app (s x : str) (bol : bool) :
  ends_lines s ->
  search_release_notes bol s = None ->
  search_release_notes bol (s ++ "#"%char :: x) =
  search_release_notes (if is_empty s then bol else true) ("#"%char :: x).
Proof.
  revert bol. induction s as [|c t IH]; intros bol He Hs; [reflexivity|].
  apply ends_lines_tail in He. destruct He as [Ht Hc].
  simpl is_empty. cbv iota.
  change (search_release_notes bol ((c :: t) ++ "#"%char :: x)) with
    (match (if bol then match_release_notes ((c :: t) ++ "#"%char :: x)
            else None) with
     | Some g => Some g
     | None => search_release_notes (is_nl c) (t ++ "#"%char :: x)
     end).
  change (search_release_notes bol (c :: t)) with
    (match (if bol then match_release_notes (c :: t) else None) with
     | Some g => Some g
     | None => search_release_notes (is_nl c) t
     end) in Hs.
  assert (M : (if bol then match_release_notes ((c :: t) ++ "#"%char :: x)
               else None) = None).
  { destruct bol; [|reflexivity].
    destruct (match_release_notes (c :: t)) eqn:E; [discriminate|].
    destruct t as [|d t'].
    - rewrite (Hc eq_refl). reflexivity.
    - apply match_release_notes_app, E. }
  rewrite M.
  assert (R : search_release_notes (is_nl c) t = None).
  { destruct (if bol then match_release_notes (c :: t) else None);
      [discriminate | exact Hs]. }
  rewrite (IH (is_nl c) Ht R).
  destruct t as [|d t']; [|reflexivity].
  simpl is_empty. cbv iota. rewrite (Hc eq_refl). reflexivity.
Qed.

Lemma extract_none_search (pr_body : str) :
  extract_release_notes_section pr_body = None ->
  search_release_notes true pr_body = None.
Proof.
  unfold extract_release_notes_section.
  destruct pr_body as [|c t]; [reflexivity|]. simpl is_empty. cbv iota.
  destruct (search_release_notes true (c :: t)); [discriminate | reflexivity].
Qed.

Lemma extract_app (pre x : str) :
  ends_lines pre ->
  extract_release_notes_section pre = None ->
  extract_release_notes_section (pre ++ "#"%char :: x) =
  option_map strip (search_release_notes true ("#"%char :: x)).
Proof.
  intros He Hn. apply extract_none_search in Hn.
  unfold extract_release_notes_section.
  destruct (pre ++ "#"%char :: x) eqn:E; [destruct pre; discriminate|].
  simpl is_empty. cbv iota. rewrite <- E.
  rewrite search_release_notes_app by assumption.
  destruct pre; reflexivity.
Qed.

End ExtractorFacts.

(** ** The aggregator: attribution and duplicates *)

Section AttributionFacts.

Lemma strip_prefix_app (p b : str) : strip_prefix p (p ++ b) = Some b.
Proof.
  induction p as [|c p IH]; [reflexivity|]. simpl.
  rewrite Ascii.eqb_refl. exact IH.
Qed.

Lemma contains_app_r (p a s : str) :
  contains p s = true -> contains p (a ++ s) = true.
Proof.
  unfold contains. intros H. induction a as [|c a IH]; [exact H|].
  change (find p ((c :: a) ++ s)) with
    (if startswith p (c :: a ++ s) then Some 0
     else option_map S (find p (a ++ s))).
  destruct (startswith p (c :: a ++ s)); [reflexivity|].
  destruct (find p (a ++ s)); [reflexivity | discriminate].
Qed.

Lemma contains_middle (p a b : str) : contains p (a ++ p ++ b) = true.
Proof.
  apply contains_app_r. unfold contains.
  assert (S : startswith p (p ++ b) = true).
  { unfold startswith. rewrite strip_prefix_app. reflexivity. }
  destruct (p ++ b); simpl; simpl in S; rewrite S; reflexivity.
Qed.

Lemma format_entry_rule (pr : PR) (entry : str) :
  format_entry pr entry =
  if names_pr pr entry then entry else entry ++ attribution pr.
Proof.
  unfold format_entry, names_pr, attribution.
  destruct (contains (lit "#" ++ str_of_int (number pr)) entry);
    destruct (contains (url pr) entry); reflexivity.
Qed.

Lemma names_pr_attributed (pr : PR) (entry : str) :
  names_pr pr (entry ++ attribution pr) = true.
Proof.
  unfold names_pr, attribution. apply orb_true_iff. left.
  replace (entry ++ lit " [#" ++ str_of_int (number pr) ++ lit "](" ++ url pr
           ++ lit ") [" ++ author pr ++ lit "](" ++ author_url pr ++ lit ")")
    with ((entry ++ lit " [")
          ++ (lit "#" ++ str_of_int (number pr))
          ++ (lit "](" ++ url pr ++ lit ") [" ++ author pr ++ lit "]("
              ++ author_url pr ++ lit ")")).
  - apply contains_middle.
  - rewrite <- !app_assoc. reflexivity.
Qed.

Lemma format_entry_idem (pr : PR) (entry : str) :
  format_entry pr (format_entry pr entry) = format_entry pr entry.
Proof.
  rewrite (format_entry_rule pr entry).
  destruct (names_pr pr entry) eqn:E.
  - rewrite format_entry_rule, E. reflexivity.
  - rewrite format_entry_rule, names_pr_attributed. reflexivity.
Qed.

(** The digits of a number hold no closing bracket. *)
Lemma string_of_uint_no_bracket (u : Decimal.uint) :
  Forall (fun c => c <> "]"%char)
    (list_ascii_of_string (NilEmpty.string_of_uint u)).
Proof.
  induction u; simpl; constructor; try discriminate; try assumption.
Qed.

Lemma str_of_int_no_bracket (n : Z) :
  Forall (fun c => c <> "]"%char) (str_of_int n).
Proof.
  unfold str_of_int, lit. destruct (Z.to_int n) as [u|u]; simpl.
  - apply string_of_uint_no_bracket.
  - constructor; [discriminate | apply string_of_uint_no_bracket].
Qed.

Lemma str_of_int_inj (n m : Z) : str_of_int n = str_of_int m -> n = m.
Proof.
  unfold str_of_int, lit. intros H.
  apply (f_equal string_of_list_ascii) in H.
  rewrite !string_of_list_ascii_of_string in H.
  apply (f_equal NilEmpty.int_of_string) in H.
  rewrite !NilEmpty.isi in H. inversion H as [E].
  rewrite <- (DecimalZ.of_to n), <- (DecimalZ.of_to m), E. reflexivity.
Qed.

(** Two texts without a mark, each followed by the mark, start a common
    text only if they are equal. *)
Lemma before_mark_inj (m : ascii) (a b x y : str) :
  Forall (fun c => c <> m) a -> Forall (fun c => c <> m) b ->
  a ++ m :: x = b ++ m :: y -> a = b.
Proof.
  revert b. induction a as [|c a IH]; intros b Ha Hb E.
  - destruct b as [|d b]; [reflexivity|]. simpl in E. inversion E; subst.
    inversion Hb; subst. congruence.
  - destruct b as [|d b]; simpl in E; inversion E; subst.
    + inversion Ha; subst. congruence.
    + inversion Ha; inversion Hb; subst. f_equal. eapply IH; eassumption.
Qed.

Lemma attribution_inj_number (pr1 pr2 : PR) :
  attribution pr1 = attribution pr2 -> number pr1 = number pr2.
Proof.
  unfold attribution. intros H. simpl in H. inversion H as [E].
  apply str_of_int_inj.
  eapply (before_mark_inj "]"%char); [| |exact E];
    apply str_of_int_no_bracket.
Qed.

Lemma app_self_nil (a b : str) : a = a ++ b -> b = [].
Proof.
  intros H. apply (f_equal (@List.length ascii)) in H.
  rewrite length_app in H. destruct b; [reflexivity | simpl in H; lia].
Qed.

Lemma attribution_not_nil (pr : PR) : attribution pr <> [].
Proof. unfold attribution. discriminate. Qed.

(** Two PRs with different numbers give one entry text two different
    lines, unless the text names both of them. *)
Lemma format_entry_distinct (pr1 pr2 : PR) (entry : str) :
  number pr1 <> number pr2 ->
  names_pr pr1 entry && names_pr pr2 entry = false ->
  format_entry pr1 entry <> format_entry pr2 entry.
Proof.
  intros Hn Hb. rewrite !format_entry_rule.
  destruct (names_pr pr1 entry), (names_pr pr2 entry);
    try discriminate Hb; intros E.
  - apply app_self_nil in E. exact (attribution_not_nil _ E).
  - symmetry in E. apply app_self_nil in E. exact (attribution_not_nil _ E).
  - apply app_inv_head in E. apply Hn, attribution_inj_number, E.
Qed.

Lemma append_new_In (f : str) (l : list str) : In f (append_new f l).
Proof.
  unfold append_new. destruct (existsb (str_eqb f) l) eqn:E.
  - apply existsb_exists in E. destruct E as (x & Hx & E).
    apply str_eqb_eq in E. subst x. exact Hx.
  - apply in_or_app. right. left. reflexivity.
Qed.

Lemma append_new_keeps (f g : str) (l : list str) :
  In g l -> In g (append_new f l).
Proof.
  unfold append_new. destruct (existsb (str_eqb f) l); [auto|].
  intros H. apply in_or_app. left. exact H.
Qed.

Lemma append_new_two (f g : str) :
  f <> g -> append_new g (append_new f []) = [f; g].
Proof.
  intros H. apply not_eq_sym in H. apply str_eqb_neq in H.
  unfold append_new. cbn [existsb app]. rewrite H. reflexivity.
Qed.

End AttributionFacts.

(** ** The aggregator: collected entries and rendering *)

Section RenderFacts.

Lemma rstrip_fixed_app (a b : str) : tidy_end b -> tidy_end (a ++ b).
Proof.
  intros [Hn Hr]. split.
  - destruct a; [exact Hn | discriminate].
  - rewrite rstrip_app, Hr. destruct b; [congruence | reflexivity].
Qed.

Lemma tidy_start_app (a b : str) : tidy_start a -> tidy_start (a ++ b).
Proof.
  intros [Hn Hl]. split.
  - destruct a; [congruence | discriminate].
  - apply lstrip_fixed_app; assumption.
Qed.

Lemma tidy_end_strip (s : str) : strip s <> [] -> tidy_end (strip s).
Proof. intros H. split; [exact H | apply rstrip_strip]. Qed.

Lemma join_cons_cons (sep l l' : str) (ls : list str) :
  join sep (l :: l' :: ls) = l ++ sep ++ join sep (l' :: ls).
Proof. reflexivity. Qed.

Lemma tidy_start_join (sep l : str) (ls : list str) :
  tidy_start l -> tidy_start (join sep (l :: ls)).
Proof.
  intros H. destruct ls as [|l' ls]; [exact H|].
  rewrite join_cons_cons. apply tidy_start_app, H.
Qed.

Lemma tidy_end_join (sep : str) (ls : list str) :
  ls <> [] -> Forall tidy_end ls -> tidy_end (join sep ls).
Proof.
  induction ls as [|l ls IH]; [congruence|]. intros _ H.
  inversion H as [|? ? Hl Hls]; subst.
  destruct ls as [|l' ls']; [exact Hl|].
  rewrite join_cons_cons, app_assoc.
  apply rstrip_fixed_app, IH; [discriminate | exact Hls].
Qed.

(** *** The collected entries are tidy *)

Lemma tidy_dict_setdefault (k : str) (d : dict) :
  tidy_dict d -> tidy_dict (dict_setdefault k d).
Proof.
  unfold dict_setdefault, tidy_dict. intros H.
  destruct (dict_mem k d); [exact H|].
  apply Forall_app. split; [exact H|]. repeat constructor.
Qed.

Lemma tidy_dict_update (k : str) (f : list str -> list str) (d : dict) :
  (forall l, Forall tidy_end l -> Forall tidy_end (f l)) ->
  tidy_dict d -> tidy_dict (dict_update k f d).
Proof.
  unfold tidy_dict. intros Hf. induction d as [|[k' v] d IH]; [auto|].
  intros H. inversion H as [|? ? Hv Hd]; subst. simpl.
  destruct (str_eqb k k'); constructor; simpl; auto.
Qed.

Lemma tidy_dict_get (k : str) (d : dict) (l : list str) :
  tidy_dict d -> dict_get k d = Some l -> Forall tidy_end l.
Proof.
  unfold tidy_dict. induction d as [|[k' v] d IH]; [discriminate|].
  intros H. inversion H as [|? ? Hv Hd]; subst. simpl.
  destruct (str_eqb k k'); [|auto]. intros E. inversion E; subst. exact Hv.
Qed.

Lemma parse_line_tidy (st : parse_state) (line : str) :
  tidy_dict (fst st) -> tidy_dict (fst (parse_line st line)).
Proof.
  destruct st as [categories cur]. unfold parse_line. intros H.
  change (tidy_dict categories) in H.
  destruct (is_empty (strip line)); [exact H|].
  destruct (category_match (strip line)) as [g|].
  - destruct (is_valid_category (strip g)); [|exact H].
    apply tidy_dict_setdefault, H.
  - destruct (startswith (lit "-") (strip line)
              || startswith (lit "*") (strip line)); [|exact H].
    destruct cur as [cur|]; [|exact H].
    destruct (strip (tl (strip line))) as [|c t] eqn:E; [exact H|].
    cbn [is_empty fst].
    apply tidy_dict_update; [|exact H].
    intros l Hl. apply Forall_app. split; [exact Hl|].
    constructor; [|constructor]. rewrite <- E.
    apply tidy_end_strip. rewrite E. discriminate.
Qed.

Lemma parse_lines_tidy (lines : list str) (st : parse_state) :
  tidy_dict (fst st) -> tidy_dict (fst (parse_lines st lines)).
Proof.
  unfold parse_lines. revert st.
  induction lines as [|l ls IH]; intros st H; [exact H|].
  cbn [fold_left]. apply IH, parse_line_tidy, H.
Qed.

Lemma parse_release_notes_tidy (content : str) :
  tidy_dict (parse_release_notes content).
Proof.
  unfold parse_release_notes. apply parse_lines_tidy. constructor.
Qed.

Lemma attribution_tidy_end (pr : PR) : tidy_end (attribution pr).
Proof.
  unfold attribution. rewrite !app_assoc. apply rstrip_fixed_app.
  split; [discriminate | reflexivity].
Qed.

Lemma format_entry_tidy (pr : PR) (entry : str) :
  tidy_end entry -> tidy_end (format_entry pr entry).
Proof.
  intros H. rewrite format_entry_rule.
  destruct (names_pr pr entry); [exact H|].
  apply rstrip_fixed_app, attribution_tidy_end.
Qed.

Lemma add_entry_tidy (pr : PR) (category : str) (d : dict) (entry : str) :
  tidy_end entry -> tidy_dict d -> tidy_dict (add_entry pr category d entry).
Proof.
  intros He Hd. unfold add_entry. apply tidy_dict_update; [|exact Hd].
  intros l Hl. unfold append_new.
  destruct (existsb (str_eqb (format_entry pr entry)) l); [exact Hl|].
  apply Forall_app. split; [exact Hl|].
  constructor; [apply format_entry_tidy, He | constructor].
Qed.

Lemma add_entries_tidy (pr : PR) (category : str) (entries : list str)
  (d : dict) :
  Forall tidy_end entries -> tidy_dict d ->
  tidy_dict (fold_left (add_entry pr category) entries d).
Proof.
  revert d. induction entries as [|e es IH]; intros d He Hd; [exact Hd|].
  inversion He; subst. cbn [fold_left].
  apply IH; [assumption|]. apply add_entry_tidy; assumption.
Qed.

Lemma add_categories_tidy (pr : PR) (parsed : dict) (d : dict) :
  tidy_dict parsed -> tidy_dict d ->
  tidy_dict (fold_left (add_category pr) parsed d).
Proof.
  revert d. induction parsed as [|[c es] parsed IH]; intros d Hp Hd;
    [exact Hd|].
  inversion Hp as [|? ? Hes Hrest]; subst. cbn [fold_left].
  apply IH; [exact Hrest|]. unfold add_category.
  apply add_entries_tidy; [exact Hes|]. apply tidy_dict_setdefault, Hd.
Qed.

Lemma collect_pr_tidy (d : dict) (pr : PR) :
  tidy_dict d -> tidy_dict (collect_pr d pr).
Proof.
  intros H. unfold collect_pr.
  destruct (extract_release_notes_section (body pr)) as [rn|]; [|exact H].
  destruct (is_opt_out rn); [exact H|].
  apply add_categories_tidy; [apply parse_release_notes_tidy | exact H].
Qed.

Lemma collected_tidy (prs : list PR) (d : dict) :
  tidy_dict d -> tidy_dict (fold_left collect_pr prs d).
Proof.
  revert d. induction prs as [|pr prs IH]; intros d H; [exact H|].
  cbn [fold_left]. apply IH, collect_pr_tidy, H.
Qed.

(** *** The rendered text *)

Lemma category_lines_block (d : dict) (c : str) :
  category_lines d c =
  if has_entries d c then block_lines d c ++ [[]] else [].
Proof.
  unfold category_lines, has_entries, block_lines, entries_of.
  destruct (dict_get c d) as [[|e es]|]; reflexivity.
Qed.

Lemma flat_map_filter (A B : Type) (f g : A -> list B) (p : A -> bool)
  (l : list A) :
  (forall x, f x = if p x then g x else []) ->
  flat_map f l = flat_map g (filter p l).
Proof.
  intros H. induction l as [|x l IH]; [reflexivity|]. simpl.
  rewrite H, IH. destruct (p x); reflexivity.
Qed.

Lemma changelog_lines_blocks (d : dict) :
  changelog_lines d =
  flat_map (fun c => block_lines d c ++ [[]])
    (filter (has_entries d) category_order).
Proof.
  unfold changelog_lines. apply flat_map_filter. apply category_lines_block.
Qed.

Lemma join_app_lines (sep : str) (a b : list str) :
  a <> [] -> b <> [] -> join sep (a ++ b) = join sep a ++ sep ++ join sep b.
Proof.
  induction a as [|l a IH]; [congruence|]. intros _ Hb.
  destruct a as [|l' a'].
  - destruct b; [congruence | reflexivity].
  - change ((l :: l' :: a') ++ b) with (l :: (l' :: a') ++ b).
    change ((l' :: a') ++ b) with (l' :: a' ++ b) at 1.
    rewrite !join_cons_cons.
    change (l' :: a' ++ b) with ((l' :: a') ++ b).
    rewrite IH by (discriminate || exact Hb).
    rewrite <- !app_assoc. reflexivity.
Qed.

(** Blocks, each followed by an empty line, joined by newlines: the block
    texts with one empty line between two of them, and a last newline. *)
Lemma join_blocks (d : dict) (cs : list str) :
  cs <> [] ->
  join [nl] (flat_map (fun c => block_lines d c ++ [[]]) cs) =
  join [nl; nl] (map (category_block d) cs) ++ [nl].
Proof.
  induction cs as [|c cs IH]; [congruence|]. intros _.
  assert (B : block_lines d c <> []) by (unfold block_lines; discriminate).
  destruct cs as [|c' cs'].
  - cbn [flat_map]. rewrite app_nil_r.
    rewrite join_app_lines by (exact B || discriminate). reflexivity.
  - change (flat_map (fun c0 => block_lines d c0 ++ [[]]) (c :: c' :: cs'))
      with ((block_lines d c ++ [[]])
            ++ flat_map (fun c0 => block_lines d c0 ++ [[]]) (c' :: cs')).
    assert (R : flat_map (fun c0 => block_lines d c0 ++ [[]]) (c' :: cs')
                <> []).
    { simpl. unfold block_lines. discriminate. }
    rewrite <- app_assoc.
    rewrite join_app_lines by (exact B || discriminate).
    change ([[]] ++ flat_map (fun c0 => block_lines d c0 ++ [[]]) (c' :: cs'))
      with ([] :: flat_map (fun c0 => block_lines d c0 ++ [[]]) (c' :: cs')).
    destruct (flat_map (fun c0 => block_lines d c0 ++ [[]]) (c' :: cs'))
      as [|q qs] eqn:Q; [congruence|].
    rewrite join_cons_cons. rewrite IH by discriminate.
    change (map (category_block d) (c :: c' :: cs')) with
      (category_block d c :: category_block d c'
       :: map (category_block d) cs').
    rewrite join_cons_cons.
    change (map (category_block d) (c' :: cs')) with
      (category_block d c' :: map (category_block d) cs').
    unfold category_block at 1 3. simpl app. rewrite <- !app_assoc.
    reflexivity.
Qed.

Lemma strip_tidy_newline (s : str) :
  tidy_start s -> tidy_end s -> strip (s ++ [nl]) = s.
Proof.
  intros [Hn Hl] [_ Hr]. unfold strip.
  rewrite lstrip_fixed_app by assumption.
  rewrite rstrip_app. simpl. exact Hr.
Qed.

Lemma category_block_tidy (d : dict) (c : str) :
  tidy_dict d -> has_entries d c = true ->
  tidy_start (category_block d c) /\ tidy_end (category_block d c).
Proof.
  intros Hd Hc. unfold category_block, block_lines. split.
  - apply tidy_start_join. split; [discriminate | reflexivity].
  - unfold has_entries in Hc. unfold entries_of.
    destruct (dict_get c d) as [[|e es]|] eqn:G; try discriminate Hc.
    pose proof (tidy_dict_get c d _ Hd G) as He.
    change (map (fun entry => lit "- " ++ entry) (e :: es)) with
      ((lit "- " ++ e) :: map (fun entry => lit "- " ++ entry) es).
    rewrite join_cons_cons, app_assoc.
    apply rstrip_fixed_app.
    apply (tidy_end_join [nl]
             (map (fun entry => lit "- " ++ entry) (e :: es)));
      [discriminate|].
    apply Forall_map. eapply Forall_impl; [|exact He].
    intros x Hx. apply rstrip_fixed_app, Hx.
Qed.

Lemma blocks_tidy (d : dict) (cs : list str) :
  tidy_dict d -> cs <> [] -> Forall (fun c => has_entries d c = true) cs ->
  tidy_start (join [nl; nl] (map (category_block d) cs))
  /\ tidy_end (join [nl; nl] (map (category_block d) cs)).
Proof.
  intros Hd Hn Hc. destruct cs as [|c cs]; [congruence|]. split.
  - simpl map. apply tidy_start_join.
    inversion Hc; subst. apply category_block_tidy; assumption.
  - apply tidy_end_join; [discriminate|].
    apply Forall_map. eapply Forall_impl; [|exact Hc].
    intros x Hx. apply category_block_tidy; assumption.
Qed.

Lemma filter_has_entries (d : dict) (cs : list str) :
  Forall (fun c => has_entries d c = true) (filter (has_entries d) cs).
Proof.
  apply Forall_forall. intros x Hx. apply filter_In in Hx. apply Hx.
Qed.

(** The rendered text of a mapping with tidy entries. *)
Lemma render_blocks (d : dict) :
  tidy_dict d ->
  render d =
  join [nl; nl]
    (map (category_block d) (filter (has_entries d) category_order)).
Proof.
  intros Hd. unfold render. rewrite changelog_lines_blocks.
  destruct (filter (has_entries d) category_order) as [|c cs] eqn:F;
    [reflexivity|].
  rewrite join_blocks by discriminate.
  assert (T : Forall (fun c => has_entries d c = true) (c :: cs)).
  { rewrite <- F. apply filter_has_entries. }
  destruct (blocks_tidy d (c :: cs) Hd) as [Hs He];
    [discriminate | exact T |].
  apply strip_tidy_newline; assumption.
Qed.

Lemma render_lookup (d1 d2 : dict) :
  Forall (fun c => dict_get c d1 = dict_get c d2) category_order ->
  render d1 = render d2.
Proof.
  intros H. unfold render, changelog_lines. f_equal. f_equal.
  rewrite !flat_map_concat_map. f_equal.
  apply map_ext_in. intros c Hc. rewrite Forall_forall in H.
  unfold category_lines. rewrite (H c Hc). reflexivity.
Qed.

End RenderFacts.

(** ** The changelog inserter *)

Section InserterFacts.

Variable Version : Type.
Variable parse_version : str -> option Version.
Variable version_gt : Version -> Version -> bool.

Local Abbreviation candidate := (is_candidate parse_version version_gt).
Local Abbreviation find_position := (find_insert_position parse_version version_gt).

(** Every match reported by [finditer] is a match of the pattern at the
    reported offset. *)
Lemma finditer_In (m : str -> option (nat * str)) (s : str) :
  forall pos skip p g,
    In (p, g) (finditer m pos skip s) ->
    pos <= p /\ exists n, m (skipn (p - pos) s) = Some (S n, g).
Proof.
  induction s as [|c t IH]; intros pos skip p g H; [contradiction|].
  assert (R : forall k, In (p, g) (finditer m (S pos) k t) ->
              pos <= p /\ exists n, m (skipn (p - pos) (c :: t)) = Some (S n, g)).
  { intros k Hk. destruct (IH _ _ _ _ Hk) as [L [n E]].
    split; [lia|]. exists n.
    replace (p - pos) with (S (p - S pos)) by lia. exact E. }
  destruct skip as [|k]; [|exact (R k H)].
  cbn [finditer] in H.
  destruct (m (c :: t)) as [[[|n] g']|] eqn:M; try exact (R 0 H).
  destruct H as [H | H]; [|exact (R n H)].
  inversion H; subst. split; [lia|]. exists n.
  rewrite Nat.sub_diag. exact M.
Qed.

Lemma find_position_skip (new : Version) (start : nat) (m : nat * str)
  (rest : list (nat * str)) :
  candidate new start m = false ->
  find_position new start (m :: rest) = find_position new start rest.
Proof.
  destruct m as [st ver]. unfold is_candidate. cbn [find_insert_position fst snd].
  destruct (Nat.ltb_spec st start) as [L | L].
  - reflexivity.
  - assert (E : (start <=? st) = true) by (apply Nat.leb_le; exact L).
    rewrite E. cbn [andb].
    destruct (parse_version (lstrip_char "v" ver)); [|reflexivity].
    intros G. rewrite G. reflexivity.
Qed.

Lemma find_position_take (new : Version) (start : nat) (m : nat * str)
  (rest : list (nat * str)) :
  candidate new start m = true ->
  find_position new start (m :: rest) = Some (fst m).
Proof.
  destruct m as [st ver]. unfold is_candidate. cbn [find_insert_position fst snd].
  intros H. apply andb_true_iff in H. destruct H as [L G].
  apply Nat.leb_le in L.
  destruct (Nat.ltb_spec st start) as [L' | _]; [lia|].
  destruct (parse_version (lstrip_char "v" ver)); [|discriminate].
  rewrite G. reflexivity.
Qed.

(** The loop returns the start of the first candidate. *)
Lemma find_position_some (new : Version) (start : nat)
  (matches : list (nat * str)) (p : nat) :
  find_position new start matches = Some p <->
  exists pre ver post,
    matches = pre ++ (p, ver) :: post
    /\ Forall (fun m => candidate new start m = false) pre
    /\ candidate new start (p, ver) = true.
Proof.
  split.
  - induction matches as [|m rest IH]; [discriminate|]. intros H.
    destruct (candidate new start m) eqn:C.
    + rewrite find_position_take in H by exact C. inversion H; subst.
      destruct m as [st ver]. exists [], ver, rest.
      split; [reflexivity|]. split; [constructor | exact C].
    + rewrite find_position_skip in H by exact C.
      destruct (IH H) as (pre & ver & post & E & F & K).
      exists (m :: pre), ver, post. subst rest.
      split; [reflexivity|]. split; [constructor; assumption | exact K].
  - intros (pre & ver & post & E & F & K). subst matches.
    induction pre as [|m pre IH].
    + apply (find_position_take new start (p, ver) post K).
    + inversion F; subst. cbn [app].
      rewrite find_position_skip by assumption. apply IH. assumption.
Qed.

Lemma find_position_none (new : Version) (start : nat)
  (matches : list (nat * str)) :
  find_position new start matches = None <->
  Forall (fun m => candidate new start m = false) matches.
Proof.
  induction matches as [|m rest IH]; [split; [constructor | reflexivity]|].
  destruct (candidate new start m) eqn:C.
  - rewrite find_position_take by exact C. split; [discriminate|].
    intros H. inversion H; subst. congruence.
  - rewrite find_position_skip by exact C. rewrite IH. split.
    + intros H. constructor; assumption.
    + intros H. inversion H; assumption.
Qed.

Lemma re_search_spec (m : str -> option nat) (s : str) :
  forall pos a b,
    re_search m pos s = Some (a, b) ->
    pos <= a /\ exists n, m (skipn (a - pos) s) = Some n /\ b = a + n.
Proof.
  induction s as [|c t IH]; intros pos a b H.
  - cbn [re_search] in H. destruct (m []) as [n|] eqn:M; [|discriminate].
    inversion H; subst. split; [lia|]. exists n.
    rewrite Nat.sub_diag. split; [exact M | reflexivity].
  - cbn [re_search] in H. destruct (m (c :: t)) as [n|] eqn:M.
    + inversion H; subst. split; [lia|]. exists n.
      rewrite Nat.sub_diag. split; [exact M | reflexivity].
    + destruct (IH _ _ _ H) as [L (n & E & B)]. split; [lia|]. exists n.
      replace (a - pos) with (S (a - S pos)) by lia. split; assumption.
Qed.

Lemma strip_prefix_some (p s r : str) :
  strip_prefix p s = Some r -> s = p ++ r.
Proof.
  revert s. induction p as [|c p IH]; intros s H.
  - inversion H. reflexivity.
  - destruct s as [|d s]; [discriminate|]. simpl in H.
    destruct (Ascii.eqb c d) eqn:E; [|discriminate].
    apply Ascii.eqb_eq in E. subst d. simpl. f_equal. apply IH, H.
Qed.

Lemma span_spec (f : ascii -> bool) (s : str) :
  s = fst (span f s) ++ snd (span f s) /\ forallb f (fst (span f s)) = true.
Proof.
  induction s as [|c t [IH1 IH2]]; [split; reflexivity|]. simpl.
  destruct (f c) eqn:E; [|split; reflexivity].
  destruct (span f t) as [w r]. simpl in *. rewrite E, IH2.
  split; [f_equal; exact IH1 | reflexivity].
Qed.

Lemma last_nl_some (u : str) (i : nat) :
  last_nl u = Some i ->
  exists u1 u2, u = u1 ++ nl :: u2 /\ List.length u1 = i.
Proof.
  revert i. induction u as [|c t IH]; intros i H; [discriminate|].
  simpl in H. destruct (last_nl t) as [j|].
  - inversion H; subst. destruct (IH j eq_refl) as (u1 & u2 & E & L).
    exists (c :: u1), u2. subst t. split; [reflexivity | simpl; lia].
  - destruct (is_nl c) eqn:E; [|discriminate]. inversion H; subst.
    apply is_nl_true in E. subst c. exists [], t. split; reflexivity.
Qed.

(** A match of the Unreleased heading: the heading, then whitespace that
    ends with a newline. *)
Lemma match_unreleased_spec (s : str) (n : nat) :
  match_unreleased s = Some n ->
  exists w rest,
    s = lit "## [Unreleased]" ++ w ++ rest
    /\ forallb isspace w = true
    /\ last w " "%char = nl
    /\ n = 15 + List.length w.
Proof.
  unfold match_unreleased.
  destruct (strip_prefix (lit "## [Unreleased]") s) as [r|] eqn:P;
    [|discriminate].
  apply strip_prefix_some in P.
  destruct (span_spec isspace r) as [R A].
  destruct (last_nl (fst (span isspace r))) as [i|] eqn:L; [|discriminate].
  intros H. inversion H; subst n.
  destruct (last_nl_some _ _ L) as (u1 & u2 & E & Len).
  exists (u1 ++ [nl]), (u2 ++ snd (span isspace r)).
  rewrite E in R, A. split.
  - rewrite P. f_equal. rewrite R at 1. rewrite <- !app_assoc. reflexivity.
  - rewrite forallb_app in A |- *. apply andb_true_iff in A.
    destruct A as [A1 A2]. rewrite A1. split; [reflexivity|].
    split; [apply last_last|]. rewrite length_app. simpl. lia.
Qed.

End InserterFacts.

(** ** The section extractor: where the section ends *)

Section SectionBodyFacts.

Lemma no_level2_heading_cons (b : bool) (c : ascii) (t : str) :
  no_level2_heading b (c :: t) = true ->
  at_level2_heading b (c :: t) = false
  /\ no_level2_heading (is_nl c) t = true.
Proof.
  cbn [no_level2_heading]. intros H. apply andb_true_iff in H.
  destruct H as [H1 H2]. apply negb_true_iff in H1. split; assumption.
Qed.

(** Without a heading the section is all the text. *)
Lemma section_body_all (s : str) :
  forall b, no_level2_heading b s = true -> section_body b s = s.
Proof.
  induction s as [|c t IH]; intros b H.
  - cbn [section_body]. destruct (at_level2_heading b []); reflexivity.
  - apply no_level2_heading_cons in H. destruct H as [H1 H2].
    cbn [section_body]. rewrite H1. f_equal. apply IH, H2.
Qed.

(** The heading test reads three characters: behind lines it does not see
    what follows them. *)
Lemma at_level2_heading_app (b : bool) (c : ascii) (t x : str) :
  ends_lines (c :: t) ->
  at_level2_heading b ((c :: t) ++ x) = at_level2_heading b (c :: t).
Proof.
  intros E. unfold at_level2_heading. f_equal.
  apply ends_lines_tail in E. destruct E as [Et Ec].
  destruct t as [|d t].
  - rewrite (Ec eq_refl). reflexivity.
  - apply ends_lines_tail in Et. destruct Et as [_ Ed].
    destruct t as [|e t].
    + rewrite (Ed eq_refl). cbn [app strip_prefix lit list_ascii_of_string].
      destruct (Ascii.eqb "#" c); reflexivity.
    + cbn [app strip_prefix lit list_ascii_of_string].
      destruct (Ascii.eqb "#" c); [|reflexivity].
      destruct (Ascii.eqb "#" d); reflexivity.
Qed.

(** Lines without a heading, then a level-2 heading: the section is the
    lines. *)
Lemma section_body_stops (s rest : str) (h : ascii) :
  isspace h = true ->
  forall b,
    (s = [] -> b = true) -> ends_lines s ->
    no_level2_heading b s = true ->
    section_body b (s ++ lit "##" ++ h :: rest) = s.
Proof.
  intros Hh. induction s as [|c t IH]; intros b B E H.
  - rewrite (B eq_refl).
    cbn [app lit list_ascii_of_string section_body].
    unfold at_level2_heading.
    cbn [andb lit list_ascii_of_string strip_prefix].
    rewrite !Ascii.eqb_refl, Hh. reflexivity.
  - apply no_level2_heading_cons in H. destruct H as [H1 H2].
    pose proof (at_level2_heading_app b c t (lit "##" ++ h :: rest) E) as A.
    rewrite H1 in A.
    change (((c :: t) ++ lit "##" ++ h :: rest))
      with (c :: (t ++ lit "##" ++ h :: rest)) in A |- *.
    cbn [section_body]. rewrite A. f_equal.
    apply ends_lines_tail in E. destruct E as [Et Ec].
    apply IH; [|exact Et | exact H2].
    intros N. rewrite (Ec N). reflexivity.
Qed.

Lemma last_cons_default (w : str) :
  forall c p, last (c :: w) p = last w c.
Proof.
  induction w as [|d w IH]; intros c p; [reflexivity|].
  change (last (c :: d :: w) p) with (last (d :: w) p).
  rewrite (IH d p), (IH d c). reflexivity.
Qed.

(** Skipping a prefix keeps the text free of headings; [p] is the
    character before the prefix. *)
Lemma no_level2_heading_skip (w r : str) :
  forall p,
    no_level2_heading (is_nl p) (w ++ r) = true ->
    no_level2_heading (is_nl (last (p :: w) p)) r = true.
Proof.
  induction w as [|c w IH]; intros p H; [exact H|].
  apply no_level2_heading_cons in H. destruct H as [_ H].
  specialize (IH c H).
  rewrite last_cons_default in IH |- *.
  rewrite last_cons_default. exact IH.
Qed.

Lemma ends_lines_app_r (w r : str) : ends_lines (w ++ r) -> ends_lines r.
Proof.
  induction w as [|c w IH]; [auto|]. intros E.
  apply ends_lines_tail in E. apply IH, E.
Qed.

Lemma span_app_stop (f : ascii -> bool) (s x : str) (h : ascii) :
  f h = false ->
  span f (s ++ h :: x) = (fst (span f s), snd (span f s) ++ h :: x).
Proof.
  intros Hh. induction s as [|c t IH]; simpl.
  - rewrite Hh. reflexivity.
  - destruct (f c); [|reflexivity].
    rewrite IH. destruct (span f t). reflexivity.
Qed.

Lemma lstrip_spaces_app (w r : str) :
  forallb isspace w = true -> lstrip (w ++ r) = lstrip r.
Proof.
  induction w as [|c w IH]; [reflexivity|]. simpl. intros H.
  apply andb_true_iff in H. destruct H as [Hc Hw]. rewrite Hc. apply IH, Hw.
Qed.

Lemma strip_spaces_app (w r : str) :
  forallb isspace w = true -> strip (w ++ r) = strip r.
Proof. intros H. unfold strip. rewrite lstrip_spaces_app by exact H. reflexivity. Qed.

Lemma strip_app_nl (s : str) : strip (s ++ [nl]) = strip s.
Proof.
  unfold strip. rewrite <- !lstrip_rstrip. rewrite rstrip_app. reflexivity.
Qed.

Lemma ws_plus_run (w x : str) (h : ascii) :
  w <> [] -> forallb isspace w = true -> isspace h = false ->
  ws_plus (w ++ h :: x) = Some (w, h :: x).
Proof.
  intros Hn Hw Hh. unfold ws_plus. rewrite span_app_stop by exact Hh.
  assert (S : span isspace w = (w, [])).
  { clear Hn. induction w as [|c w IH]; [reflexivity|]. simpl in *.
    apply andb_true_iff in Hw. destruct Hw as [Hc Hw].
    rewrite Hc, (IH Hw). reflexivity. }
  rewrite S. destruct w; [congruence | reflexivity].
Qed.

Lemma strip_iprefix_exact (p x : str) :
  strip_iprefix (map tolower p) (p ++ x) = Some x.
Proof.
  induction p as [|c p IH]; [reflexivity|]. simpl.
  rewrite Ascii.eqb_refl. exact IH.
Qed.

(** The heading [## Release Notes] and a newline, at the start of a line:
    the match is decided by the text behind them. *)
Lemma match_release_notes_heading (t : str) :
  match_release_notes (lit "## Release Notes" ++ nl :: t) =
  Some (section_body (is_nl (last (nl :: fst (span isspace t)) nl))
          (snd (span isspace t))).
Proof.
  unfold match_release_notes.
  change (lit "## Release Notes" ++ nl :: t) with
    (lit "##" ++ lit " " ++ "R"%char :: lit "elease Notes" ++ nl :: t).
  rewrite strip_prefix_app.
  rewrite ws_plus_run by (discriminate || reflexivity).
  change ("R"%char :: lit "elease Notes" ++ nl :: t) with
    (lit "Release" ++ lit " " ++ "N"%char :: lit "otes" ++ nl :: t).
  change (lit "release") with (map tolower (lit "Release")).
  rewrite strip_iprefix_exact.
  rewrite ws_plus_run by (discriminate || reflexivity).
  change ("N"%char :: lit "otes" ++ nl :: t) with (lit "Notes" ++ nl :: t).
  change (lit "notes") with (map tolower (lit "Notes")).
  rewrite strip_iprefix_exact.
  unfold ws_plus.
  change (span isspace (nl :: t)) with
    (let (w, r) := span isspace t in (nl :: w, r)).
  destruct (span isspace t) as [w r]. reflexivity.
Qed.

(** What stands behind the heading line, up to a text [x] that starts with
    a character that is no whitespace. *)
Lemma extract_after_heading (pre t : str) :
  ends_lines pre ->
  extract_release_notes_section pre = None ->
  extract_release_notes_section (pre ++ lit "## Release Notes" ++ nl :: t) =
  Some (strip (section_body (is_nl (last (nl :: fst (span isspace t)) nl))
                 (snd (span isspace t)))).
Proof.
  intros He Hn.
  change (pre ++ lit "## Release Notes" ++ nl :: t) with
    (pre ++ "#"%char :: (lit "# Release Notes" ++ nl :: t)).
  rewrite extract_app by assumption.
  change ("#"%char :: (lit "# Release Notes" ++ nl :: t)) with
    (lit "## Release Notes" ++ nl :: t).
  destruct (lit "## Release Notes" ++ nl :: t) as [|c u] eqn:E;
    [discriminate|].
  cbn [search_release_notes]. rewrite <- E.
  rewrite match_release_notes_heading. reflexivity.
Qed.

End SectionBodyFacts.


(** ** The section extractor: bodies without a heading *)

Section NoHeadingFacts.

Lemma startswith_false (p s : str) :
  startswith p s = false -> strip_prefix p s = None.
Proof.
  unfold startswith. destruct (strip_prefix p s); [discriminate | reflexivity].
Qed.

(** Two number signs at the start of a text are at the start of its first
    line. *)
Lemma startswith_first_line (t : str) :
  startswith (lit "##") t = startswith (lit "##") (hd [] (split_nl t)).
Proof.
  destruct t as [|a [|b t]].
  - reflexivity.
  - cbn [split_nl]. destruct (is_nl a); cbn [hd];
      unfold startswith; cbn [lit list_ascii_of_string strip_prefix];
      destruct (Ascii.eqb "#" a); reflexivity.
  - cbn [split_nl]. destruct (is_nl a) eqn:Ea.
    + apply is_nl_true in Ea. subst a. reflexivity.
    + destruct (is_nl b) eqn:Eb.
      * apply is_nl_true in Eb. subst b. cbn [hd].
        unfold startswith. cbn [lit list_ascii_of_string strip_prefix].
        destruct (Ascii.eqb "#" a); reflexivity.
      * pose proof (split_nl_not_nil t) as N.
        destruct (split_nl t) as [|l ls]; [congruence|]. cbn [hd].
        unfold startswith. cbn [lit list_ascii_of_string strip_prefix].
        destruct (Ascii.eqb "#" a); [|reflexivity].
        destruct (Ascii.eqb "#" b); reflexivity.
Qed.

Lemma match_release_notes_needs_signs (s : str) :
  startswith (lit "##") s = false -> match_release_notes s = None.
Proof.
  intros H. unfold match_release_notes.
  rewrite (startswith_false _ _ H). reflexivity.
Qed.

Lemma split_nl_tail (c : ascii) (t : str) :
  tl (split_nl (c :: t)) =
  if is_nl c then split_nl t else tl (split_nl t).
Proof.
  cbn [split_nl]. destruct (is_nl c); [reflexivity|].
  pose proof (split_nl_not_nil t) as N.
  destruct (split_nl t); [congruence | reflexivity].
Qed.

Lemma search_release_notes_none (s : str) :
  forall bol,
    (bol = true -> startswith (lit "##") s = false) ->
    Forall (fun l => startswith (lit "##") l = false) (tl (split_nl s)) ->
    search_release_notes bol s = None.
Proof.
  induction s as [|c t IH]; intros bol B F.
  - cbn [search_release_notes]. destruct bol; reflexivity.
  - cbn [search_release_notes].
    assert (M : (if bol then match_release_notes (c :: t) else None) = None).
    { destruct bol; [|reflexivity].
      apply match_release_notes_needs_signs, B. reflexivity. }
    rewrite M. rewrite split_nl_tail in F. apply IH.
    + intros E. rewrite E in F. rewrite startswith_first_line.
      pose proof (split_nl_not_nil t) as N.
      destruct (split_nl t); [congruence|]. inversion F; assumption.
    + destruct (is_nl c); [|exact F].
      destruct (split_nl t); [constructor | inversion F; assumption].
Qed.

End NoHeadingFacts.


(** ** The content cleaner: fixed points and comments *)

Section CleanMoreFacts.

Lemma filter_all (A : Type) (f : A -> bool) (l : list A) :
  forallb f l = true -> filter f l = l.
Proof.
  induction l as [|x l IH]; [reflexivity|]. simpl. intros H.
  apply andb_true_iff in H. destruct H as [Hx Hl].
  rewrite Hx, (IH Hl). reflexivity.
Qed.

Lemma map_strip_lines (ls : list str) :
  Forall is_line ls -> map strip ls = ls.
Proof.
  induction 1 as [|l ls Hl _ IH]; [reflexivity|]. simpl.
  rewrite (is_line_strip _ Hl), IH. reflexivity.
Qed.

(** Behind a match of [k] characters the substitution goes on afresh. *)
Lemma re_sub_skip (m : str -> option nat) (repl x y : str) :
  re_sub m repl (List.length x) (x ++ y) = re_sub m repl 0 y.
Proof.
  induction x as [|c x IH]; [reflexivity|]. simpl. exact IH.
Qed.

Lemma match_comment_needs_open (c : ascii) (t : str) :
  Ascii.eqb "<" c = false -> match_comment (c :: t) = None.
Proof.
  intros H. unfold match_comment.
  cbn [lit list_ascii_of_string strip_prefix]. rewrite H. reflexivity.
Qed.

Lemma remove_comments_plain (a rest : str) :
  forallb (fun c => negb (Ascii.eqb "<" c)) a = true ->
  remove_comments (a ++ rest) = a ++ remove_comments rest.
Proof.
  unfold remove_comments. induction a as [|c a IH]; [reflexivity|].
  cbn [forallb]. intros H. apply andb_true_iff in H. destruct H as [Hc Ha].
  apply negb_true_iff in Hc.
  change (re_sub match_comment [] 0 ((c :: a) ++ rest)) with
    (match match_comment (c :: a ++ rest) with
     | Some (S k) => [] ++ re_sub match_comment [] k (a ++ rest)
     | _ => c :: re_sub match_comment [] 0 (a ++ rest)
     end).
  rewrite match_comment_needs_open by exact Hc.
  cbn [app]. f_equal. apply IH, Ha.
Qed.

(** In a text without [>] the first closing mark is the one behind it. *)
Lemma find_close (c b : str) :
  forallb (fun x => negb (Ascii.eqb ">" x)) c = true ->
  find (lit "-->") (c ++ lit "-->" ++ b) = Some (List.length c).
Proof.
  induction c as [|x c IH]; [reflexivity|].
  cbn [forallb]. intros H. apply andb_true_iff in H. destruct H as [Hx Hc].
  change (find (lit "-->") ((x :: c) ++ lit "-->" ++ b)) with
    (if startswith (lit "-->") (x :: c ++ lit "-->" ++ b) then Some 0
     else option_map S (find (lit "-->") (c ++ lit "-->" ++ b))).
  rewrite (IH Hc).
  assert (N : startswith (lit "-->") (x :: c ++ lit "-->" ++ b) = false).
  { unfold startswith. cbn [lit list_ascii_of_string strip_prefix].
    destruct (Ascii.eqb "-" x); [|reflexivity].
    destruct c as [|y c]; [reflexivity|].
    cbn [app strip_prefix]. destruct (Ascii.eqb "-" y); [|reflexivity].
    destruct c as [|z c]; [reflexivity|].
    cbn [app strip_prefix]. cbn [forallb] in Hc.
    apply andb_true_iff in Hc. destruct Hc as [_ Hc].
    apply andb_true_iff in Hc. destruct Hc as [Hz _].
    apply negb_true_iff in Hz. rewrite Hz. reflexivity. }
  rewrite N. reflexivity.
Qed.

Lemma remove_comments_comment (c b : str) :
  forallb (fun x => negb (Ascii.eqb ">" x)) c = true ->
  remove_comments (lit "<!--" ++ c ++ lit "-->" ++ b) = remove_comments b.
Proof.
  intros H. unfold remove_comments.
  change (re_sub match_comment [] 0 (lit "<!--" ++ c ++ lit "-->" ++ b)) with
    (match match_comment (lit "<!--" ++ c ++ lit "-->" ++ b) with
     | Some (S k) =>
         [] ++ re_sub match_comment [] k (lit "!--" ++ c ++ lit "-->" ++ b)
     | _ => "<"%char
            :: re_sub match_comment [] 0 (lit "!--" ++ c ++ lit "-->" ++ b)
     end).
  unfold match_comment. rewrite strip_prefix_app, (find_close c b H).
  cbn [option_map Nat.add app].
  replace (lit "!--" ++ c ++ lit "-->" ++ b)
    with ((lit "!--" ++ c ++ lit "-->") ++ b)
    by (rewrite <- !app_assoc; reflexivity).
  replace (S (S (S (List.length c + 3))))
    with (List.length (lit "!--" ++ c ++ lit "-->"))
    by (rewrite !length_app; simpl; lia).
  apply re_sub_skip.
Qed.

End CleanMoreFacts.


(** ** The category parser: what the mapping holds *)

Section MappingFacts.

Lemma dict_get_none (k : str) (d : dict) :
  dict_get k d = None -> ~ In k (keys d).
Proof.
  induction d as [|[k' v] d IH]; [auto|]. simpl.
  destruct (str_eqb k k') eqn:E; [discriminate|].
  intros H [K | K].
  - subst k'. rewrite (proj2 (str_eqb_eq k k) eq_refl) in E. discriminate.
  - exact (IH H K).
Qed.

Lemma dict_get_some (k : str) (d : dict) (l : list str) :
  dict_get k d = Some l -> In (k, l) d.
Proof.
  induction d as [|[k' v] d IH]; [discriminate|]. simpl.
  destruct (str_eqb k k') eqn:E.
  - intros H. inversion H; subst. apply str_eqb_eq in E. subst k'.
    left. reflexivity.
  - intros H. right. apply IH, H.
Qed.

Lemma keys_update (k : str) (f : list str -> list str) (d : dict) :
  keys (dict_update k f d) = keys d.
Proof.
  induction d as [|[k' v] d IH]; [reflexivity|]. simpl.
  destruct (str_eqb k k'); simpl; [reflexivity|]. f_equal. exact IH.
Qed.

Lemma keys_setdefault (k : str) (d : dict) :
  keys (dict_setdefault k d) = if dict_mem k d then keys d else keys d ++ [k].
Proof.
  unfold dict_setdefault, keys. destruct (dict_mem k d); [reflexivity|].
  rewrite map_app. reflexivity.
Qed.

Lemma NoDup_keys_setdefault (k : str) (d : dict) :
  NoDup (keys d) -> NoDup (keys (dict_setdefault k d)).
Proof.
  intros H. rewrite keys_setdefault. unfold dict_mem.
  destruct (dict_get k d) eqn:G; [exact H|].
  apply dict_get_none in G.
  apply NoDup_app; [exact H | repeat constructor; auto |].
  intros x Hx [E | []]. subst x. exact (G Hx).
Qed.

Lemma is_valid_category_In (c : str) :
  is_valid_category c = true <-> In c VALID_CATEGORIES.
Proof.
  unfold is_valid_category. rewrite existsb_exists. split.
  - intros (x & Hx & E). apply str_eqb_eq in E. subst x. exact Hx.
  - intros H. exists c. split; [exact H | apply str_eqb_eq; reflexivity].
Qed.

(** The keys stay distinct valid categories over a line. *)
Lemma parse_line_keys (st : parse_state) (line : str) :
  NoDup (keys (fst st)) /\ Forall (fun k => In k VALID_CATEGORIES) (keys (fst st)) ->
  NoDup (keys (fst (parse_line st line)))
  /\ Forall (fun k => In k VALID_CATEGORIES) (keys (fst (parse_line st line))).
Proof.
  destruct st as [categories cur]. unfold parse_line. intros H.
  change (NoDup (keys categories)
          /\ Forall (fun k => In k VALID_CATEGORIES) (keys categories)) in H.
  destruct (is_empty (strip line)); [exact H|].
  destruct (category_match (strip line)) as [g|].
  - destruct (is_valid_category (strip g)) eqn:V; [|exact H].
    cbn [fst]. destruct H as [N F]. split.
    + apply NoDup_keys_setdefault, N.
    + rewrite keys_setdefault. destruct (dict_mem (strip g) categories);
        [exact F|].
      apply Forall_app. split; [exact F|].
      constructor; [apply is_valid_category_In, V | constructor].
  - destruct (startswith (lit "-") (strip line)
              || startswith (lit "*") (strip line)); [|exact H].
    destruct cur as [cur|]; [|exact H].
    destruct (is_empty (strip (tl (strip line)))); [exact H|].
    cbn [fst]. rewrite keys_update. exact H.
Qed.

Lemma parse_lines_keys (lines : list str) (st : parse_state) :
  NoDup (keys (fst st)) /\ Forall (fun k => In k VALID_CATEGORIES) (keys (fst st)) ->
  NoDup (keys (fst (parse_lines st lines)))
  /\ Forall (fun k => In k VALID_CATEGORIES)
       (keys (fst (parse_lines st lines))).
Proof.
  unfold parse_lines. revert st.
  induction lines as [|l ls IH]; intros st H; [exact H|].
  cbn [fold_left]. apply IH, parse_line_keys, H.
Qed.

Lemma no_nl_tl (l : str) : no_nl l -> no_nl (tl l).
Proof.
  destruct l as [|c t]; [auto|]. intros H. apply no_nl_cons in H. apply H.
Qed.

Lemma no_nl_strip (l : str) : no_nl l -> no_nl (strip l).
Proof. intros H. unfold strip. apply no_nl_rstrip, no_nl_lstrip, H. Qed.

Lemma entries_ok_update (k : str) (f : list str -> list str) (d : dict) :
  (forall l, Forall entry_ok l -> Forall entry_ok (f l)) ->
  entries_ok d -> entries_ok (dict_update k f d).
Proof.
  unfold entries_ok. intros Hf. induction d as [|[k' v] d IH]; [auto|].
  intros H. inversion H as [|? ? Hv Hd]; subst. simpl.
  destruct (str_eqb k k'); constructor; simpl; auto.
Qed.

Lemma entries_ok_setdefault (k : str) (d : dict) :
  entries_ok d -> entries_ok (dict_setdefault k d).
Proof.
  unfold dict_setdefault, entries_ok. intros H.
  destruct (dict_mem k d); [exact H|].
  apply Forall_app. split; [exact H|]. repeat constructor.
Qed.

(** The entries stay well formed over a line without newline. *)
Lemma parse_line_entries (st : parse_state) (line : str) :
  no_nl line -> entries_ok (fst st) -> entries_ok (fst (parse_line st line)).
Proof.
  destruct st as [categories cur]. unfold parse_line. intros Hl H.
  change (entries_ok categories) in H.
  destruct (is_empty (strip line)); [exact H|].
  destruct (category_match (strip line)) as [g|].
  - destruct (is_valid_category (strip g)); [|exact H].
    apply entries_ok_setdefault, H.
  - destruct (startswith (lit "-") (strip line)
              || startswith (lit "*") (strip line)); [|exact H].
    destruct cur as [cur|]; [|exact H].
    destruct (strip (tl (strip line))) as [|c t] eqn:E; [exact H|].
    cbn [is_empty fst].
    apply entries_ok_update; [|exact H].
    intros l Hok. apply Forall_app. split; [exact Hok|].
    constructor; [|constructor]. rewrite <- E. split; [|split].
    + rewrite E. discriminate.
    + apply strip_idem.
    + apply no_nl_strip, no_nl_tl, no_nl_strip, Hl.
Qed.

Lemma parse_lines_entries (lines : list str) (st : parse_state) :
  Forall no_nl lines -> entries_ok (fst st) ->
  entries_ok (fst (parse_lines st lines)).
Proof.
  unfold parse_lines. revert st.
  induction lines as [|l ls IH]; intros st Hl H; [exact H|].
  inversion Hl; subst. cbn [fold_left].
  apply IH; [assumption|]. apply parse_line_entries; assumption.
Qed.

Lemma parse_release_notes_keys (content : str) :
  NoDup (keys (parse_release_notes content))
  /\ Forall (fun k => In k VALID_CATEGORIES) (keys (parse_release_notes content)).
Proof.
  unfold parse_release_notes. apply parse_lines_keys.
  split; constructor.
Qed.

Lemma parse_release_notes_entries (content : str) :
  entries_ok (parse_release_notes content).
Proof.
  unfold parse_release_notes.
  apply parse_lines_entries; [apply split_nl_no_nl | constructor].
Qed.

End MappingFacts.


(** ** The validator: what a returned mapping holds *)

Section ValidatorFacts.

Lemma empty_categories_nil (d : dict) :
  empty_categories d = [] -> Forall (fun ce => snd ce <> []) d.
Proof.
  unfold empty_categories. induction d as [|[k v] d IH]; [constructor|].
  simpl. destruct v as [|e v]; simpl; [discriminate|].
  intros H. constructor; [discriminate | apply IH, H].
Qed.

Lemma Forall_keys (P : str -> Prop) (d : dict) :
  Forall P (keys d) <-> Forall (fun ce => P (fst ce)) d.
Proof. unfold keys. apply Forall_map. Qed.

End ValidatorFacts.


(** ** The aggregator: the collected mapping *)

Section CollectFacts.

Lemma str_eqb_sym (a b : str) : str_eqb a b = str_eqb b a.
Proof.
  destruct (str_eqb a b) eqn:E.
  - apply str_eqb_eq in E. subst b. symmetry. apply str_eqb_eq. reflexivity.
  - symmetry. apply str_eqb_neq. apply str_eqb_neq in E. congruence.
Qed.

Lemma dict_get_update (c k : str) (f : list str -> list str) (d : dict) :
  dict_get c (dict_update k f d) =
  if str_eqb c k then option_map f (dict_get c d) else dict_get c d.
Proof.
  induction d as [|[k' v] d IH]; [simpl; destruct (str_eqb c k); reflexivity|].
  simpl. destruct (str_eqb k k') eqn:K.
  - apply str_eqb_eq in K. subst k'. simpl.
    destruct (str_eqb c k); reflexivity.
  - simpl. destruct (str_eqb c k') eqn:C.
    + apply str_eqb_eq in C. subst k'.
      rewrite str_eqb_sym, K. reflexivity.
    + exact IH.
Qed.

Lemma dict_get_app (c : str) (d d' : dict) :
  dict_get c (d ++ d') =
  match dict_get c d with Some l => Some l | None => dict_get c d' end.
Proof.
  induction d as [|[k v] d IH]; [reflexivity|]. simpl.
  destruct (str_eqb c k); [reflexivity | exact IH].
Qed.

Lemma dict_update_id (c : str) (f : list str -> list str) (d : dict)
  (l : list str) :
  dict_get c d = Some l -> f l = l -> dict_update c f d = d.
Proof.
  induction d as [|[k v] d IH]; [reflexivity|]. simpl.
  destruct (str_eqb c k).
  - intros H E. inversion H; subst. rewrite E. reflexivity.
  - intros H E. f_equal. apply IH; assumption.
Qed.

Lemma append_new_id (f : str) (l : list str) : In f l -> append_new f l = l.
Proof.
  intros H. unfold append_new.
  destruct (existsb (str_eqb f) l) eqn:E; [reflexivity|].
  assert (T : existsb (str_eqb f) l = true).
  { apply existsb_exists. exists f. split; [exact H|].
    apply str_eqb_eq. reflexivity. }
  congruence.
Qed.

Lemma append_new_incl (f : str) (l : list str) : incl l (append_new f l).
Proof. intros x Hx. apply append_new_keeps, Hx. Qed.

Lemma append_new_NoDup (f : str) (l : list str) :
  NoDup l -> NoDup (append_new f l).
Proof.
  intros H. unfold append_new.
  destruct (existsb (str_eqb f) l) eqn:E; [exact H|].
  apply NoDup_app; [exact H | repeat constructor; auto |].
  intros x Hx [K | []]. subst x.
  assert (T : existsb (str_eqb f) l = true).
  { apply existsb_exists. exists f. split; [exact Hx|].
    apply str_eqb_eq. reflexivity. }
  congruence.
Qed.

(** *** Keys and lists of the collected mapping *)

Lemma keys_add_entries (pr : PR) (c : str) (es : list str) (d : dict) :
  keys (fold_left (add_entry pr c) es d) = keys d.
Proof.
  revert d. induction es as [|e es IH]; intros d; [reflexivity|].
  cbn [fold_left]. rewrite IH. apply keys_update.
Qed.

Lemma add_categories_keys (pr : PR) (parsed : dict) (d : dict) :
  Forall (fun k => In k VALID_CATEGORIES) (keys parsed) ->
  NoDup (keys d) /\ Forall (fun k => In k VALID_CATEGORIES) (keys d) ->
  NoDup (keys (fold_left (add_category pr) parsed d))
  /\ Forall (fun k => In k VALID_CATEGORIES)
       (keys (fold_left (add_category pr) parsed d)).
Proof.
  revert d. induction parsed as [|[c es] parsed IH]; intros d Hp H; [exact H|].
  inversion Hp as [|? ? Hc Hrest]; subst. cbn [fold_left].
  apply IH; [exact Hrest|]. unfold add_category.
  rewrite keys_add_entries. destruct H as [N F]. split.
  - apply NoDup_keys_setdefault, N.
  - rewrite keys_setdefault. destruct (dict_mem c d); [exact F|].
    apply Forall_app. split; [exact F|]. constructor; [exact Hc | constructor].
Qed.

Lemma collect_pr_keys (d : dict) (pr : PR) :
  NoDup (keys d) /\ Forall (fun k => In k VALID_CATEGORIES) (keys d) ->
  NoDup (keys (collect_pr d pr))
  /\ Forall (fun k => In k VALID_CATEGORIES) (keys (collect_pr d pr)).
Proof.
  intros H. unfold collect_pr.
  destruct (extract_release_notes_section (body pr)) as [rn|]; [|exact H].
  destruct (is_opt_out rn); [exact H|].
  apply add_categories_keys; [|exact H]. apply parse_release_notes_keys.
Qed.

Lemma lists_nodup_update (k : str) (f : list str -> list str) (d : dict) :
  (forall l, NoDup l -> NoDup (f l)) ->
  lists_nodup d -> lists_nodup (dict_update k f d).
Proof.
  unfold lists_nodup. intros Hf. induction d as [|[k' v] d IH]; [auto|].
  intros H. inversion H as [|? ? Hv Hd]; subst. simpl.
  destruct (str_eqb k k'); constructor; simpl; auto.
Qed.

Lemma lists_nodup_setdefault (k : str) (d : dict) :
  lists_nodup d -> lists_nodup (dict_setdefault k d).
Proof.
  unfold dict_setdefault, lists_nodup. intros H.
  destruct (dict_mem k d); [exact H|].
  apply Forall_app. split; [exact H|]. repeat constructor.
Qed.

Lemma add_entries_nodup (pr : PR) (c : str) (es : list str) (d : dict) :
  lists_nodup d -> lists_nodup (fold_left (add_entry pr c) es d).
Proof.
  revert d. induction es as [|e es IH]; intros d H; [exact H|].
  cbn [fold_left]. apply IH. unfold add_entry.
  apply lists_nodup_update; [|exact H].
  intros l. apply append_new_NoDup.
Qed.

Lemma collect_pr_nodup (d : dict) (pr : PR) :
  lists_nodup d -> lists_nodup (collect_pr d pr).
Proof.
  intros H. unfold collect_pr.
  destruct (extract_release_notes_section (body pr)) as [rn|]; [|exact H].
  destruct (is_opt_out rn); [exact H|].
  generalize (parse_release_notes rn). intros parsed. revert d H.
  induction parsed as [|[c es] parsed IH]; intros d H; [exact H|].
  cbn [fold_left]. apply IH. unfold add_category.
  apply add_entries_nodup, lists_nodup_setdefault, H.
Qed.

(** *** The collected mapping only grows *)

Lemma dict_le_refl (d : dict) : dict_le d d.
Proof. intros c l H. exists l. split; [exact H | apply incl_refl]. Qed.

Lemma dict_le_trans (a b c : dict) : dict_le a b -> dict_le b c -> dict_le a c.
Proof.
  intros H1 H2 k l H. destruct (H1 k l H) as (l1 & G1 & I1).
  destruct (H2 k l1 G1) as (l2 & G2 & I2).
  exists l2. split; [exact G2 | eapply incl_tran; eassumption].
Qed.

Lemma dict_le_update (k : str) (f : list str -> list str) (d : dict) :
  (forall l, incl l (f l)) -> dict_le d (dict_update k f d).
Proof.
  intros Hf c l H. rewrite dict_get_update, H.
  destruct (str_eqb c k); simpl; eexists; split; try reflexivity.
  - apply Hf.
  - apply incl_refl.
Qed.

Lemma dict_le_setdefault (k : str) (d : dict) :
  dict_le d (dict_setdefault k d).
Proof.
  intros c l H. unfold dict_setdefault.
  destruct (dict_mem k d); [exists l; split; [exact H | apply incl_refl]|].
  rewrite dict_get_app, H. exists l. split; [reflexivity | apply incl_refl].
Qed.

Lemma dict_le_add_entries (pr : PR) (c : str) (es : list str) (d : dict) :
  dict_le d (fold_left (add_entry pr c) es d).
Proof.
  revert d. induction es as [|e es IH]; intros d; [apply dict_le_refl|].
  cbn [fold_left]. eapply dict_le_trans; [|apply IH].
  unfold add_entry. apply dict_le_update. intros l. apply append_new_incl.
Qed.

Lemma dict_le_add_categories (pr : PR) (parsed d : dict) :
  dict_le d (fold_left (add_category pr) parsed d).
Proof.
  revert d. induction parsed as [|[c es] parsed IH]; intros d;
    [apply dict_le_refl|].
  cbn [fold_left]. eapply dict_le_trans; [|apply IH].
  unfold add_category.
  eapply dict_le_trans; [apply dict_le_setdefault | apply dict_le_add_entries].
Qed.

Lemma dict_le_collect_pr (d : dict) (pr : PR) : dict_le d (collect_pr d pr).
Proof.
  unfold collect_pr.
  destruct (extract_release_notes_section (body pr)) as [rn|];
    [|apply dict_le_refl].
  destruct (is_opt_out rn); [apply dict_le_refl|].
  apply dict_le_add_categories.
Qed.

Lemma dict_le_collect (prs : list PR) (d : dict) :
  dict_le d (fold_left collect_pr prs d).
Proof.
  revert d. induction prs as [|pr prs IH]; intros d; [apply dict_le_refl|].
  cbn [fold_left]. eapply dict_le_trans; [apply dict_le_collect_pr | apply IH].
Qed.

(** *** A PR whose lines are in the mapping adds nothing *)

Lemma covered_le (d d' : dict) (pr : PR) (parsed : dict) :
  dict_le d d' -> covered d pr parsed -> covered d' pr parsed.
Proof.
  unfold covered. intros L H. eapply Forall_impl; [|exact H].
  intros [c es] (l & G & F). destruct (L _ _ G) as (l' & G' & I).
  exists l'. split; [exact G'|]. eapply Forall_impl; [|exact F].
  intros e He. apply I, He.
Qed.

Lemma add_entries_absorbed (pr : PR) (c : str) (es : list str) (d : dict)
  (l : list str) :
  dict_get c d = Some l ->
  Forall (fun e => In (format_entry pr e) l) es ->
  fold_left (add_entry pr c) es d = d.
Proof.
  intros G. induction es as [|e es IH]; [reflexivity|]. intros F.
  inversion F; subst. cbn [fold_left]. unfold add_entry at 2.
  rewrite (dict_update_id c _ d l G) by (apply append_new_id; assumption).
  apply IH. assumption.
Qed.

Lemma add_categories_absorbed (pr : PR) (parsed d : dict) :
  covered d pr parsed -> fold_left (add_category pr) parsed d = d.
Proof.
  unfold covered. induction parsed as [|[c es] parsed IH]; [reflexivity|].
  intros H. inversion H as [|? ? (l & G & F) Hrest]; subst.
  cbn [fold_left fst snd] in *. unfold add_category at 2.
  unfold dict_setdefault, dict_mem. rewrite G.
  rewrite (add_entries_absorbed pr c es d l G F). apply IH, Hrest.
Qed.

Lemma add_entries_covered (pr : PR) (c : str) (es : list str) :
  forall d l0,
    dict_get c d = Some l0 ->
    exists l, dict_get c (fold_left (add_entry pr c) es d) = Some l
              /\ Forall (fun e => In (format_entry pr e) l) es.
Proof.
  induction es as [|e es IH]; intros d l0 G.
  - exists l0. split; [exact G | constructor].
  - cbn [fold_left].
    assert (G1 : dict_get c (add_entry pr c d e)
                 = Some (append_new (format_entry pr e) l0)).
    { unfold add_entry. rewrite dict_get_update, G.
      rewrite (proj2 (str_eqb_eq c c) eq_refl). reflexivity. }
    destruct (IH _ _ G1) as (l & Gl & Fl).
    exists l. split; [exact Gl|]. constructor; [|exact Fl].
    destruct (dict_le_add_entries pr c es (add_entry pr c d e) c _ G1)
      as (l' & Gl' & I).
    rewrite Gl in Gl'. inversion Gl'; subst l'.
    apply I, append_new_In.
Qed.

Lemma dict_get_setdefault_same (c : str) (d : dict) :
  exists l, dict_get c (dict_setdefault c d) = Some l.
Proof.
  unfold dict_setdefault, dict_mem.
  destruct (dict_get c d) as [l|] eqn:G; [exists l; exact G|].
  exists []. rewrite dict_get_app, G. simpl.
  rewrite (proj2 (str_eqb_eq c c) eq_refl). reflexivity.
Qed.

Lemma add_categories_covered (pr : PR) (parsed : dict) :
  forall d, covered (fold_left (add_category pr) parsed d) pr parsed.
Proof.
  unfold covered. induction parsed as [|[c es] parsed IH]; intros d;
    [constructor|].
  cbn [fold_left]. constructor; [|apply IH].
  cbn [fst snd]. unfold add_category.
  destruct (dict_get_setdefault_same c d) as (l0 & G0).
  destruct (add_entries_covered pr c es _ _ G0) as (l & G & F).
  destruct (dict_le_add_categories pr parsed _ c l G) as (l' & G' & I).
  exists l'. split; [exact G'|]. eapply Forall_impl; [|exact F].
  intros e He. apply I, He.
Qed.

(** A PR that was collected adds nothing when collected again, however
    many PRs came in between. *)
Lemma collect_pr_again (pr : PR) (later : list PR) (d : dict) :
  collect_pr (fold_left collect_pr later (collect_pr d pr)) pr
  = fold_left collect_pr later (collect_pr d pr).
Proof.
  destruct (extract_release_notes_section (body pr)) as [rn|] eqn:E.
  - destruct (is_opt_out rn) eqn:O.
    + unfold collect_pr at 1. rewrite E, O. reflexivity.
    + assert (C : forall d', collect_pr d' pr
                  = fold_left (add_category pr) (parse_release_notes rn) d').
      { intros d'. unfold collect_pr. rewrite E, O. reflexivity. }
      rewrite (C (fold_left collect_pr later (collect_pr d pr))).
      apply add_categories_absorbed.
      eapply covered_le; [apply dict_le_collect|].
      rewrite (C d). apply add_categories_covered.
  - unfold collect_pr at 1. rewrite E. reflexivity.
Qed.

End CollectFacts.


(** ** The rendered text, parsed *)

Section RoundTripFacts.

Lemma entry_ok_tidy_end (e : str) : entry_ok e -> tidy_end e.
Proof.
  intros (N & S & _). split; [exact N|]. rewrite <- S. apply rstrip_strip.
Qed.

Lemma entries_ok_tidy (d : dict) : entries_ok d -> tidy_dict d.
Proof.
  unfold entries_ok, tidy_dict. intros H. eapply Forall_impl; [|exact H].
  intros ce Hce. eapply Forall_impl; [|exact Hce]. apply entry_ok_tidy_end.
Qed.

Lemma entries_ok_get (k : str) (d : dict) (l : list str) :
  entries_ok d -> dict_get k d = Some l -> Forall entry_ok l.
Proof.
  intros H G. apply dict_get_some in G. unfold entries_ok in H.
  rewrite Forall_forall in H. exact (H _ G).
Qed.

Lemma entries_ok_entries_of (d : dict) (c : str) :
  entries_ok d -> Forall entry_ok (entries_of d c).
Proof.
  intros H. unfold entries_of. destruct (dict_get c d) as [l|] eqn:G.
  - exact (entries_ok_get _ _ _ H G).
  - constructor.
Qed.

Lemma split_nl_app_nl (s : str) : split_nl (s ++ [nl]) = split_nl s ++ [[]].
Proof.
  induction s as [|c t IH]; [reflexivity|]. cbn [app split_nl].
  rewrite IH. destruct (is_nl c); [reflexivity|].
  pose proof (split_nl_not_nil t) as N.
  destruct (split_nl t); [congruence | reflexivity].
Qed.

Lemma bullet_is_line (e : str) :
  entry_ok e -> is_line (lit "- " ++ e) /\ lit "- " ++ e <> [].
Proof.
  intros He. pose proof (entry_ok_tidy_end e He) as T.
  destruct He as (_ & _ & Hn). split; [|discriminate]. split; [|split].
  - apply no_nl_cons. split; [reflexivity|].
    apply no_nl_cons. split; [reflexivity | exact Hn].
  - reflexivity.
  - apply (rstrip_fixed_app (lit "- ") e T).
Qed.

Lemma heading_is_line (c : str) :
  In c category_order -> is_line (lit "### " ++ c).
Proof.
  intros H. cbn in H.
  repeat (destruct H as [<- | H]; [repeat split|]). contradiction.
Qed.

Lemma block_lines_are_lines (d : dict) (c : str) :
  entries_ok d -> In c category_order ->
  Forall (fun l => is_line l /\ l <> []) (block_lines d c).
Proof.
  intros Hd Hc. unfold block_lines. constructor.
  - split; [apply heading_is_line, Hc | discriminate].
  - apply Forall_map. eapply Forall_impl; [|apply entries_ok_entries_of, Hd].
    intros e. apply bullet_is_line.
Qed.

Lemma blocks_are_lines (d : dict) (cs : list str) :
  entries_ok d -> Forall (fun c => In c category_order) cs ->
  Forall (fun l => is_line l /\ l <> []) (flat_map (block_lines d) cs).
Proof.
  intros Hd Hc. induction Hc as [|c cs H _ IH]; [constructor|].
  cbn [flat_map]. apply Forall_app. split; [|exact IH].
  apply block_lines_are_lines; assumption.
Qed.

Lemma filter_blocks (d : dict) (cs : list str) :
  Forall (fun l => is_line l /\ l <> []) (flat_map (block_lines d) cs) ->
  filter nonempty
    (map strip (flat_map (fun c => block_lines d c ++ [[]]) cs))
  = flat_map (block_lines d) cs.
Proof.
  induction cs as [|c cs IH]; [reflexivity|]. cbn [flat_map].
  intros H. apply Forall_app in H. destruct H as [Hb Hr].
  rewrite <- app_assoc, !map_app, !filter_app, (IH Hr).
  f_equal.
  - clear IH Hr. induction Hb as [|l ls [Hl Hn] _ IHl]; [reflexivity|].
    cbn [map filter]. rewrite (is_line_strip _ Hl).
    destruct l; [congruence|]. cbn [nonempty is_empty negb]. f_equal.
    exact IHl.
Qed.

(** The cleaned rendering: the lines of the blocks, without the empty
    lines between them. *)
Lemma clean_blocks (d : dict) (cs : list str) :
  entries_ok d -> Forall (fun c => In c category_order) cs -> cs <> [] ->
  has_comment (join [nl; nl] (map (category_block d) cs)) = false ->
  clean_content (join [nl; nl] (map (category_block d) cs))
  = join [nl] (flat_map (block_lines d) cs).
Proof.
  intros Hd Hc Hn Hm.
  pose proof (blocks_are_lines d cs Hd Hc) as L.
  rewrite clean_content_lines, (remove_comments_fixed _ Hm).
  rewrite <- (filter_blocks d cs L). f_equal.
  assert (S : split_nl (join [nl; nl] (map (category_block d) cs)) ++ [[]]
              = flat_map (fun c => block_lines d c ++ [[]]) cs).
  { rewrite <- split_nl_app_nl, <- join_blocks by exact Hn.
    apply split_nl_join.
    - destruct cs; [congruence|]. unfold block_lines. discriminate.
    - clear Hn Hm. induction Hc as [|c cs H _ IH]; [constructor|].
      cbn [flat_map]. apply Forall_app in L. destruct L as [Lb Lr].
      apply Forall_app. split; [|apply IH, Lr].
      apply Forall_app. split; [|repeat constructor].
      eapply Forall_impl; [|exact Lb]. intros l [[N _] _]. exact N. }
  rewrite <- S, map_app, filter_app. cbn [map filter].
  change (nonempty (strip [])) with false. cbn iota. rewrite app_nil_r.
  reflexivity.
Qed.

(** *** The parser over the lines of the blocks *)

Lemma parse_line_heading (acc : dict) (cur : option str) (c : str) :
  In c category_order ->
  parse_line (acc, cur) (lit "### " ++ c) = (dict_setdefault c acc, Some c).
Proof.
  intros H. cbn in H.
  repeat (destruct H as [<- | H]; [reflexivity|]). contradiction.
Qed.

Lemma parse_line_bullet (acc : dict) (c e : str) :
  entry_ok e ->
  parse_line (acc, Some c) (lit "- " ++ e)
  = (dict_update c (fun es => es ++ [e]) acc, Some c).
Proof.
  intros He. destruct (bullet_is_line e He) as [Hl _].
  destruct He as (Hn & Hs & _).
  unfold parse_line. rewrite (is_line_strip _ Hl).
  cbn [lit list_ascii_of_string app is_empty].
  unfold category_match, startswith.
  cbn [lit list_ascii_of_string strip_prefix].
  change (Ascii.eqb "#" "-") with false.
  change (Ascii.eqb "-" "-") with true.
  cbn [orb tl].
  assert (S : strip (" "%char :: e) = e).
  { rewrite <- Hs at 2. apply (strip_spaces_app [" "%char] e). reflexivity. }
  rewrite S. destruct e; [congruence | reflexivity].
Qed.

Lemma dict_update_last (acc : dict) (c : str) (l : list str)
  (f : list str -> list str) :
  dict_get c acc = None ->
  dict_update c f (acc ++ [(c, l)]) = acc ++ [(c, f l)].
Proof.
  induction acc as [|[k v] acc IH]; simpl.
  - rewrite (proj2 (str_eqb_eq c c) eq_refl). reflexivity.
  - destruct (str_eqb c k); [discriminate|]. intros H.
    rewrite (IH H). reflexivity.
Qed.

Lemma parse_lines_bullets (acc : dict) (c : str) (es : list str) :
  dict_get c acc = None -> Forall entry_ok es ->
  forall l,
    parse_lines (acc ++ [(c, l)], Some c)
      (map (fun entry => lit "- " ++ entry) es)
    = (acc ++ [(c, l ++ es)], Some c).
Proof.
  intros G. induction 1 as [|e es He _ IH]; intros l.
  - rewrite app_nil_r. reflexivity.
  - cbn [map]. unfold parse_lines in *. cbn [fold_left].
    rewrite parse_line_bullet by exact He.
    rewrite dict_update_last by exact G.
    rewrite IH, <- app_assoc. reflexivity.
Qed.

Lemma parse_lines_block (d acc : dict) (cur : option str) (c : str) :
  entries_ok d -> In c category_order -> dict_get c acc = None ->
  parse_lines (acc, cur) (block_lines d c)
  = (acc ++ [(c, entries_of d c)], Some c).
Proof.
  intros Hd Hc G. unfold block_lines, parse_lines. cbn [fold_left].
  rewrite parse_line_heading by exact Hc.
  unfold dict_setdefault, dict_mem. rewrite G.
  apply (parse_lines_bullets acc c (entries_of d c) G
           (entries_ok_entries_of d c Hd) []).
Qed.

Lemma parse_lines_blocks (d : dict) (cs : list str) :
  entries_ok d -> Forall (fun c => In c category_order) cs -> NoDup cs ->
  forall acc cur,
    Forall (fun c => dict_get c acc = None) cs ->
    fst (parse_lines (acc, cur) (flat_map (block_lines d) cs))
    = acc ++ map (fun c => (c, entries_of d c)) cs.
Proof.
  intros Hd Hc Hn. induction Hc as [|c cs H _ IH]; intros acc cur G.
  - cbn. rewrite app_nil_r. reflexivity.
  - inversion Hn as [|? ? Hnot Hn']; subst.
    inversion G as [|? ? Gc Gr]; subst.
    cbn [flat_map map]. rewrite parse_lines_app.
    rewrite parse_lines_block by assumption.
    rewrite (IH Hn'), <- app_assoc; [reflexivity|].
    rewrite Forall_forall in *. intros x Hx.
    rewrite dict_get_app, (Gr x Hx). cbn [dict_get].
    destruct (str_eqb x c) eqn:E; [|reflexivity].
    apply str_eqb_eq in E. subst x. contradiction.
Qed.

Lemma category_order_NoDup : NoDup category_order.
Proof.
  unfold category_order.
  repeat (constructor; [cbn; intuition discriminate|]). constructor.
Qed.

End RoundTripFacts.


(** ** The changelog inserter: the Unreleased heading and the headers *)

Section InserterMoreFacts.

Lemma last_nl_none (u : str) : last_nl u = None -> no_nl u.
Proof.
  induction u as [|c t IH]; [reflexivity|]. simpl.
  destruct (last_nl t); [discriminate|].
  destruct (is_nl c) eqn:E; [discriminate|]. intros _.
  apply no_nl_cons. split; [exact E | apply IH; reflexivity].
Qed.

(** The last newline of a text: what follows it holds no newline. *)
Lemma last_nl_split (u : str) (i : nat) :
  last_nl u = Some i ->
  exists u1 u2,
    u = u1 ++ nl :: u2 /\ List.length u1 = i /\ no_nl u2.
Proof.
  revert i. induction u as [|c t IH]; intros i H; [discriminate|].
  simpl in H. destruct (last_nl t) as [j|] eqn:L.
  - inversion H; subst. destruct (IH j eq_refl) as (u1 & u2 & E & Len & N).
    exists (c :: u1), u2. subst t.
    split; [reflexivity|]. split; [simpl; lia | exact N].
  - destruct (is_nl c) eqn:E; [|discriminate]. inversion H; subst.
    apply is_nl_true in E. subst c. exists [], t.
    split; [reflexivity|]. split; [reflexivity | apply last_nl_none, L].
Qed.

Lemma span_rest_head (f : ascii -> bool) (s : str) (c : ascii) (t : str) :
  snd (span f s) = c :: t -> f c = false.
Proof.
  induction s as [|d s IH]; [discriminate|]. simpl.
  destruct (f d) eqn:E.
  - destruct (span f s) as [w r]. simpl in *. exact IH.
  - simpl. intros H. inversion H; subst. exact E.
Qed.

(** Behind a match of the Unreleased heading there is no newline: the
    match takes the whitespace up to its last newline. *)
Lemma match_unreleased_next (x : str) (n : nat) :
  match_unreleased x = Some n -> firstn 1 (skipn n x) <> [nl].
Proof.
  unfold match_unreleased.
  destruct (strip_prefix (lit "## [Unreleased]") x) as [r|] eqn:P;
    [|discriminate].
  apply strip_prefix_some in P. subst x.
  destruct (span_spec isspace r) as [R _].
  destruct (last_nl (fst (span isspace r))) as [i|] eqn:L; [|discriminate].
  intros H. inversion H; subst n.
  destruct (last_nl_split _ _ L) as (u1 & u2 & E & Len & N).
  cbn [lit list_ascii_of_string app skipn].
  rewrite R at 1. rewrite E.
  replace ((u1 ++ nl :: u2) ++ snd (span isspace r))
    with ((u1 ++ [nl]) ++ u2 ++ snd (span isspace r))
    by (rewrite <- !app_assoc; reflexivity).
  replace (i + 1) with (List.length (u1 ++ [nl]))
    by (rewrite length_app; simpl; lia).
  rewrite skipn_app, Nat.sub_diag, skipn_all. cbn [skipn app].
  destruct u2 as [|c u2].
  - cbn [app]. destruct (snd (span isspace r)) as [|c t] eqn:S;
      [discriminate|].
    apply span_rest_head in S. cbn [firstn]. intros K. inversion K; subst.
    discriminate S.
  - apply no_nl_cons in N. destruct N as [N _].
    cbn [app firstn]. intros K. inversion K; subst. discriminate N.
Qed.

Lemma unreleased_match_spec (content : str) (s e : nat) :
  unreleased_match content = Some (s, e) ->
  e <= List.length content
  /\ firstn 1 (skipn e content) <> [nl].
Proof.
  unfold unreleased_match. intros H.
  destruct (re_search_spec _ _ _ _ _ H) as [_ (n & M & B)].
  rewrite Nat.sub_0_r in M. split.
  - destruct (match_unreleased_spec _ _ M) as (w & rest & E & _ & _ & N).
    apply (f_equal (@List.length ascii)) in E.
    rewrite length_skipn, !length_app in E. simpl in E. lia.
  - subst e. rewrite Nat.add_comm, <- skipn_skipn.
    apply match_unreleased_next, M.
Qed.

Lemma firstn_splice (content piece : str) (e p : nat) :
  e <= p -> e <= List.length content ->
  firstn e (splice content p piece) = firstn e content.
Proof.
  intros Hp Hl. unfold splice. rewrite firstn_app, length_firstn.
  replace (e - Nat.min p (List.length content)) with 0 by lia.
  rewrite firstn_firstn. cbn [firstn]. rewrite app_nil_r.
  f_equal. lia.
Qed.

(** The matches of [finditer] come by growing offset. *)
Lemma finditer_sorted (m : str -> option (nat * str)) (s : str) :
  forall pos skip,
    Forall (fun x => pos <= fst x) (finditer m pos skip s)
    /\ StronglySorted (fun a b => fst a < fst b) (finditer m pos skip s).
Proof.
  induction s as [|c t IH]; intros pos skip; [split; constructor|].
  assert (R : forall k,
             Forall (fun x => pos <= fst x) (finditer m (S pos) k t)).
  { intros k. destruct (IH (S pos) k) as [F _].
    eapply Forall_impl; [|exact F]. intros x Hx. simpl in *. lia. }
  destruct skip as [|k]; cbn [finditer].
  - destruct (m (c :: t)) as [[[|n] g]|].
    + split; [apply R | apply IH].
    + split.
      * constructor; [simpl; lia | apply R].
      * constructor; [apply IH|]. destruct (IH (S pos) n) as [F _].
        eapply Forall_impl; [|exact F]. intros x Hx. simpl in *. lia.
    + split; [apply R | apply IH].
  - split; [apply R | apply IH].
Qed.

Lemma strip_digits_app (n : nat) (s r x : str) :
  strip_digits n s = Some r -> strip_digits n (s ++ x) = Some (r ++ x).
Proof.
  revert s. induction n as [|n IH]; intros s H.
  - inversion H. reflexivity.
  - destruct s as [|c s]; [discriminate|]. simpl in *.
    destruct (isdigit c); [apply IH, H | discriminate].
Qed.

Lemma strip_prefix_app_more (p s r x : str) :
  strip_prefix p s = Some r -> strip_prefix p (s ++ x) = Some (r ++ x).
Proof.
  intros H. apply strip_prefix_some in H. subst s.
  rewrite <- app_assoc. apply strip_prefix_app.
Qed.

Lemma strip_date_app (s r x : str) :
  strip_date s = Some r -> strip_date (s ++ x) = Some (r ++ x).
Proof.
  unfold strip_date.
  destruct (strip_digits 4 s) as [s1|] eqn:E1; [|discriminate].
  rewrite (strip_digits_app _ _ _ x E1).
  destruct (strip_prefix (lit "-") s1) as [s2|] eqn:E2; [|discriminate].
  rewrite (strip_prefix_app_more _ _ _ x E2).
  destruct (strip_digits 2 s2) as [s3|] eqn:E3; [|discriminate].
  rewrite (strip_digits_app _ _ _ x E3).
  destruct (strip_prefix (lit "-") s3) as [s4|] eqn:E4; [|discriminate].
  rewrite (strip_prefix_app_more _ _ _ x E4).
  apply strip_digits_app.
Qed.

Lemma span_until_bracket (v x : str) :
  forallb is_not_bracket v = true ->
  span is_not_bracket (v ++ "]"%char :: x) = (v, "]"%char :: x).
Proof.
  induction v as [|c v IH]; [reflexivity|]. cbn [forallb]. intros H.
  apply andb_true_iff in H. destruct H as [Hc Hv]. cbn [app span].
  rewrite Hc, (IH Hv). reflexivity.
Qed.

End InserterMoreFacts.


(** ** Facts about the scans of the inserter *)

Section InserterScanFacts.

Lemma strip_digits_some (n : nat) (s r : str) :
  strip_digits n s = Some r ->
  exists ds, List.length ds = n /\ forallb isdigit ds = true /\ s = ds ++ r.
Proof.
  revert s. induction n as [|n IH]; intros s H.
  - inversion H. exists []. repeat split.
  - destruct s as [|c s]; [discriminate|]. cbn [strip_digits] in H.
    destruct (isdigit c) eqn:D; [|discriminate].
    destruct (IH _ H) as (ds & L & F & E). exists (c :: ds).
    cbn [List.length forallb app]. rewrite D, F, L, E. repeat split.
Qed.

(** The date of the header pattern, read off the text. *)
Lemma strip_date_some (s r : str) :
  strip_date s = Some r -> exists date, is_date date = true /\ s = date ++ r.
Proof.
  unfold strip_date.
  destruct (strip_digits 4 s) as [s1|] eqn:E1; [|discriminate].
  destruct (strip_prefix (lit "-") s1) as [s2|] eqn:E2; [|discriminate].
  destruct (strip_digits 2 s2) as [s3|] eqn:E3; [|discriminate].
  destruct (strip_prefix (lit "-") s3) as [s4|] eqn:E4; [|discriminate].
  intros E5.
  destruct (strip_digits_some _ _ _ E1) as (a & La & Fa & Ha).
  destruct (strip_digits_some _ _ _ E3) as (b & Lb & Fb & Hb).
  destruct (strip_digits_some _ _ _ E5) as (c & Lc & Fc & Hc).
  apply strip_prefix_some in E2. apply strip_prefix_some in E4.
  destruct a as [|y1 [|y2 [|y3 [|y4 [|]]]]]; try discriminate La.
  destruct b as [|m1 [|m2 [|]]]; try discriminate Lb.
  destruct c as [|d1 [|d2 [|]]]; try discriminate Lc.
  exists [y1; y2; y3; y4; "-"%char; m1; m2; "-"%char; d1; d2]. split.
  - cbn [forallb] in Fa, Fb, Fc. rewrite !andb_true_r in Fa, Fb, Fc.
    repeat match goal with
           | H : _ && _ = true |- _ =>
               apply andb_true_iff in H; destruct H
           end.
    unfold is_date.
    repeat match goal with
           | H : isdigit _ = true |- _ => rewrite H; clear H
           end.
    reflexivity.
  - rewrite Ha, E2, Hb, E4, Hc. reflexivity.
Qed.

Lemma strip_date_date (date r : str) :
  is_date date = true -> strip_date (date ++ r) = Some r.
Proof.
  destruct date
    as [|y1 [|y2 [|y3 [|y4 [|h1 [|m1 [|m2 [|h2 [|d1 [|d2 [|]]]]]]]]]]];
    try discriminate.
  unfold is_date. intros H.
  repeat match goal with
         | H : _ && _ = true |- _ =>
             apply andb_true_iff in H; destruct H
         end.
  repeat match goal with
         | H : Ascii.eqb _ _ = true |- _ => apply Ascii.eqb_eq in H; subst
         end.
  unfold strip_date.
  repeat (cbn [app strip_digits strip_prefix lit list_ascii_of_string];
          rewrite ?Ascii.eqb_refl;
          repeat match goal with
                 | H : isdigit _ = true |- _ => rewrite H; clear H
                 end).
  reflexivity.
Qed.

(** What the header pattern matches, in terms of the text. *)
Lemma match_version_header_iff (x g : str) (n : nat) :
  match_version_header x = Some (n, g)
  <-> header_at x g /\ n = 4 + List.length g + 4 + 10.
Proof.
  split.
  - unfold match_version_header.
    destruct (strip_prefix (lit "## [") x) as [r|] eqn:P; [|discriminate].
    apply strip_prefix_some in P.
    destruct (span_spec is_not_bracket r) as [R A].
    destruct (span is_not_bracket r) as [[|c v] r1]; [discriminate|].
    cbn [fst snd] in R, A.
    destruct (strip_prefix (lit "] - ") r1) as [r2|] eqn:P2; [|discriminate].
    apply strip_prefix_some in P2.
    destruct (strip_date r2) as [r3|] eqn:D; [|discriminate].
    intros H. inversion H; subst n g. split; [|reflexivity].
    destruct (strip_date_some _ _ D) as (date & Hd & E).
    split; [discriminate|]. split; [exact A|].
    exists date, r3. split; [exact Hd|].
    rewrite P, R, P2, E. reflexivity.
  - intros [(Hn & Hb & date & rest & Hd & E) N]. subst x n.
    unfold match_version_header. rewrite strip_prefix_app.
    change (lit "] - " ++ date ++ rest)
      with ("]"%char :: (lit " - " ++ date ++ rest)).
    rewrite span_until_bracket by exact Hb.
    destruct g as [|c v]; [congruence|].
    change ("]"%char :: (lit " - " ++ date ++ rest))
      with (lit "] - " ++ date ++ rest).
    rewrite strip_prefix_app, strip_date_date by exact Hd. reflexivity.
Qed.

Lemma span_run (f : ascii -> bool) (a v : str) :
  forallb f a = true ->
  match v with [] => True | c :: _ => f c = false end ->
  span f (a ++ v) = (a, v).
Proof.
  intros Ha Hv. induction a as [|c a IH].
  - destruct v as [|d v]; [reflexivity|]. cbn [app span]. rewrite Hv.
    reflexivity.
  - cbn [forallb] in Ha. apply andb_true_iff in Ha. destruct Ha as [Hc Ha].
    cbn [app span]. rewrite Hc, (IH Ha). reflexivity.
Qed.

Lemma no_nl_last_nl (u : str) : no_nl u -> last_nl u = None.
Proof.
  induction u as [|c t IH]; [reflexivity|]. intros H.
  apply no_nl_cons in H. destruct H as [Hc Ht]. cbn [last_nl].
  rewrite (IH Ht), Hc. reflexivity.
Qed.

Lemma last_nl_at (a u : str) :
  no_nl u -> last_nl (a ++ nl :: u) = Some (List.length a).
Proof.
  intros H. induction a as [|c a IH].
  - cbn [app last_nl List.length]. rewrite (no_nl_last_nl _ H). reflexivity.
  - cbn [app last_nl List.length]. rewrite IH. reflexivity.
Qed.

Lemma is_blank_run (u : str) :
  forallb is_blank u = true <-> forallb isspace u = true /\ no_nl u.
Proof.
  unfold no_nl. induction u as [|c u IH]; [split; [split|]; reflexivity|].
  cbn [forallb]. unfold is_blank at 1. rewrite !andb_true_iff, IH.
  tauto.
Qed.

(** What the pattern of the Unreleased heading matches, in terms of the
    text. *)
Lemma match_unreleased_iff (x : str) (n : nat) :
  match_unreleased x = Some n
  <-> exists w, unreleased_at x w /\ n = 15 + List.length w.
Proof.
  split.
  - unfold match_unreleased.
    destruct (strip_prefix (lit "## [Unreleased]") x) as [r|] eqn:P;
      [|discriminate].
    apply strip_prefix_some in P.
    destruct (span_spec isspace r) as [R A].
    destruct (last_nl (fst (span isspace r))) as [i|] eqn:L; [|discriminate].
    intros H. inversion H; subst n.
    destruct (last_nl_split _ _ L) as (u1 & u2 & E & Len & N).
    rewrite E in R, A. rewrite forallb_app in A.
    apply andb_true_iff in A. destruct A as [A1 A2].
    cbn [forallb] in A2. apply andb_true_iff in A2. destruct A2 as [A2 A3].
    exists (u1 ++ [nl]). split.
    + split; [|split; [apply last_last|]].
      * rewrite forallb_app, A1. cbn [forallb]. rewrite A2. reflexivity.
      * exists u2, (snd (span isspace r)). split; [|split].
        -- rewrite P. f_equal. rewrite R at 1. rewrite <- !app_assoc.
           reflexivity.
        -- apply is_blank_run. split; assumption.
        -- unfold starts_no_space.
           destruct (snd (span isspace r)) as [|c t] eqn:S; [exact I|].
           exact (span_rest_head _ _ _ _ S).
    + rewrite length_app. cbn [List.length]. lia.
  - intros (w & (A & La & u & v & E & B & V) & N). subst x n.
    unfold match_unreleased. rewrite strip_prefix_app.
    apply is_blank_run in B. destruct B as [B1 B2].
    rewrite app_assoc. rewrite span_run; [| |exact V].
    2:{ rewrite forallb_app, A, B1. reflexivity. }
    cbn [fst].
    destruct w as [|c w] using rev_ind; [discriminate La|].
    rewrite last_last in La. subst c. rewrite <- app_assoc.
    cbn [app]. rewrite last_nl_at by exact B2. cbn [option_map].
    rewrite length_app. cbn [List.length]. reflexivity.
Qed.

(** [re.search] returns the leftmost match, and none only when the pattern
    matches at no offset. *)
Lemma re_search_none (m : str -> option nat) (s : str) :
  forall pos, re_search m pos s = None <-> forall i, m (skipn i s) = None.
Proof.
  induction s as [|c t IH]; intros pos; cbn [re_search].
  - destruct (m []) as [n|] eqn:M.
    + split; [discriminate|]. intros H. specialize (H 0). cbn [skipn] in H.
      congruence.
    + split; [|reflexivity]. intros _ i. rewrite skipn_nil. exact M.
  - destruct (m (c :: t)) as [n|] eqn:M.
    + split; [discriminate|]. intros H. specialize (H 0). cbn [skipn] in H.
      congruence.
    + rewrite IH. split.
      * intros H [|i]; [exact M | exact (H i)].
      * intros H i. exact (H (S i)).
Qed.

Lemma re_search_leftmost (m : str -> option nat) (s : str) :
  forall pos a b,
    re_search m pos s = Some (a, b) ->
    forall i, i < a - pos -> m (skipn i s) = None.
Proof.
  induction s as [|c t IH]; intros pos a b H i Hi; cbn [re_search] in H.
  - destruct (m []) as [n|]; [|discriminate]. inversion H; subst. lia.
  - destruct (m (c :: t)) as [n|] eqn:M.
    + inversion H; subst. lia.
    + destruct i as [|i]; [exact M|]. cbn [skipn].
      apply (IH _ _ _ H). lia.
Qed.

(** [re.finditer] leaves out no match: a match of the pattern is reported,
    or it starts inside a match reported before it. *)
Lemma finditer_complete (m : str -> option (nat * str)) (s : str) :
  forall pos skip i n g,
    skip <= i -> i < List.length s ->
    m (skipn i s) = Some (S n, g) ->
    In (pos + i, g) (finditer m pos skip s)
    \/ exists p g' n',
         In (p, g') (finditer m pos skip s)
         /\ m (skipn (p - pos) s) = Some (S n', g')
         /\ p < pos + i /\ pos + i <= p + n'.
Proof.
  induction s as [|c t IH]; intros pos skip i n g Hk Hi M;
    [cbn [List.length] in Hi; lia|].
  assert (R : forall k i',
             i = S i' -> k <= i' ->
             In (pos + i, g) (finditer m (S pos) k t)
             \/ exists p g' n',
                  In (p, g') (finditer m (S pos) k t)
                  /\ m (skipn (p - pos) (c :: t)) = Some (S n', g')
                  /\ p < pos + i /\ pos + i <= p + n').
  { intros k i' Ei Hk'. subst i. cbn [skipn List.length] in M, Hi.
    destruct (IH (S pos) k i' n g Hk' ltac:(lia) M)
      as [H | (p & g' & n' & H & E & L1 & L2)].
    - left. replace (pos + S i') with (S pos + i') by lia. exact H.
    - right. exists p, g', n'. split; [exact H|].
      destruct (finditer_In _ _ _ _ _ _ H) as [L _].
      replace (p - pos) with (S (p - S pos)) by lia.
      split; [exact E | lia]. }
  destruct skip as [|k].
  - cbn [finditer]. destruct i as [|i'].
    + cbn [skipn] in M. rewrite M. left. rewrite Nat.add_0_r. left.
      reflexivity.
    + destruct (m (c :: t)) as [[[|n0] g0]|] eqn:M0;
        try exact (R 0 i' eq_refl ltac:(lia)).
      destruct (Nat.le_gt_cases n0 i') as [L | L].
      * destruct (R n0 i' eq_refl L) as [H | (p & g' & n' & H & E)].
        -- left. right. exact H.
        -- right. exists p, g', n'. split; [right; exact H | exact E].
      * right. exists pos, g0, n0. split; [left; reflexivity|].
        rewrite Nat.sub_diag. split; [exact M0 | lia].
  - cbn [finditer]. destruct i as [|i']; [lia|].
    exact (R k i' eq_refl ltac:(lia)).
Qed.

(** The matches reported by [re.finditer] do not overlap. *)
Lemma finditer_disjoint (m : str -> option (nat * str)) (len : str -> nat)
  (s : str) :
  (forall x n g, m x = Some (n, g) -> n = len g) ->
  forall pos skip,
    Forall (fun x => pos + skip <= fst x) (finditer m pos skip s)
    /\ StronglySorted (fun a b => fst a + len (snd a) <= fst b)
         (finditer m pos skip s).
Proof.
  intros Hlen. induction s as [|c t IH]; intros pos skip;
    [split; constructor|].
  assert (R : forall k j, j <= S k ->
             Forall (fun x => pos + j <= fst x) (finditer m (S pos) k t)).
  { intros k j Hj. destruct (IH (S pos) k) as [F _].
    eapply Forall_impl; [|exact F]. intros x Hx. cbn beta in *. lia. }
  destruct skip as [|k]; cbn [finditer].
  - destruct (m (c :: t)) as [[[|n] g]|] eqn:M.
    + split; [apply R; lia | apply IH].
    + split.
      * constructor; [cbn [fst]; lia | apply R; lia].
      * constructor; [apply IH|]. cbn [fst snd].
        rewrite <- (Hlen _ _ _ M). destruct (IH (S pos) n) as [F _].
        eapply Forall_impl; [|exact F]. intros x Hx. cbn beta in *. lia.
    + split; [apply R; lia | apply IH].
  - split; [apply R; lia | apply IH].
Qed.

(** The list of headers: each entry is a header of the document at its
    offset ... *)
Lemma version_matches_sound (content : str) :
  Forall (fun m => header_at (skipn (fst m) content) (snd m))
    (version_matches content).
Proof.
  apply Forall_forall. intros [p g] H. cbn [fst snd].
  destruct (finditer_In _ _ _ _ _ _ H) as [_ [n M]].
  rewrite Nat.sub_0_r in M. apply match_version_header_iff in M.
  exact (proj1 M).
Qed.

(** ... no two entries overlap ... *)
Lemma version_matches_disjoint (content : str) :
  StronglySorted
    (fun a b => fst a + (4 + List.length (snd a) + 4 + 10) <= fst b)
    (version_matches content).
Proof.
  apply (finditer_disjoint match_version_header
           (fun g => 4 + List.length g + 4 + 10)).
  intros x n g M. apply match_version_header_iff in M. exact (proj2 M).
Qed.

(** ... and a header of the document is in the list unless it starts inside
    a header that is. *)
Lemma version_matches_complete (content : str) (i : nat) (g : str) :
  header_at (skipn i content) g ->
  In (i, g) (version_matches content)
  \/ exists p g',
       In (p, g') (version_matches content)
       /\ p < i /\ i < p + (4 + List.length g' + 4 + 10).
Proof.
  intros H.
  assert (Hi : i < List.length content).
  { destruct (Nat.lt_ge_cases i (List.length content)) as [L | L];
      [exact L|].
    rewrite skipn_all2 in H by exact L.
    destruct H as (_ & _ & date & rest & _ & E). discriminate E. }
  assert (M : match_version_header (skipn i content)
              = Some (S (3 + List.length g + 4 + 10), g)).
  { apply match_version_header_iff. split; [exact H | reflexivity]. }
  destruct (finditer_complete match_version_header content 0 0 i _ g
              (Nat.le_0_l i) Hi M) as [K | (p & g' & n' & K & E & L1 & L2)].
  - left. exact K.
  - right. exists p, g'. split; [exact K|].
    rewrite Nat.sub_0_r in E. apply match_version_header_iff in E.
    destruct E as [_ E]. lia.
Qed.

(** The match of the Unreleased heading is the leftmost one. *)
Lemma unreleased_match_some (content : str) (s e : nat) :
  unreleased_match content = Some (s, e) ->
  (exists w, unreleased_at (skipn s content) w /\ e = s + 15 + List.length w)
  /\ forall i w, i < s -> ~ unreleased_at (skipn i content) w.
Proof.
  unfold unreleased_match. intros H. split.
  - destruct (re_search_spec _ _ _ _ _ H) as [_ (n & M & B)].
    rewrite Nat.sub_0_r in M. apply match_unreleased_iff in M.
    destruct M as (w & U & N). exists w. split; [exact U | lia].
  - intros i w Hi U.
    assert (N : match_unreleased (skipn i content) = None).
    { apply (re_search_leftmost _ _ _ _ _ H). lia. }
    assert (S : match_unreleased (skipn i content)
                = Some (15 + List.length w)).
    { apply match_unreleased_iff. exists w. split; [exact U | reflexivity]. }
    congruence.
Qed.

Lemma unreleased_match_none (content : str) :
  unreleased_match content = None
  <-> forall i w, ~ unreleased_at (skipn i content) w.
Proof.
  unfold unreleased_match. rewrite re_search_none. split.
  - intros H i w U.
    assert (S : match_unreleased (skipn i content)
                = Some (15 + List.length w)).
    { apply match_unreleased_iff. exists w. split; [exact U | reflexivity]. }
    rewrite H in S. discriminate S.
  - intros H i.
    destruct (match_unreleased (skipn i content)) as [n|] eqn:M;
      [|reflexivity].
    apply match_unreleased_iff in M. destruct M as (w & U & _).
    destruct (H i w U).
Qed.

End InserterScanFacts.



(** ** The tests of the repository, on the embedding *)

Section RepositoryTests.

Example test_extract_basic :
  extract_release_notes_section
    (text [""; "## Description"; "This is a test PR"; ""; "## Release Notes";
           ""; "### Fixed"; "- Fixed a bug"; ""; "## Related Issues";
           "Fixes #123"; ""])
  = Some (text ["### Fixed"; "- Fixed a bug"]).
Proof. reflexivity. Qed.

Example test_extract_missing_section :
  extract_release_notes_section
    (text [""; "## Description"; "This is a test PR"; "";
           "## Related Issues"; "Fixes #123"; ""])
  = None.
Proof. reflexivity. Qed.

Example test_extract_case_insensitive :
  extract_release_notes_section
    (text [""; "## release notes"; ""; "### Fixed"; "- Fixed a bug"; ""])
  = Some (text ["### Fixed"; "- Fixed a bug"]).
Proof. reflexivity. Qed.

Example test_extract_stops_at_next_section_no_blank_line :
  extract_release_notes_section
    (text [""; "## Release Notes"; ""; "### Fixed"; "- Fixed a bug";
           "## Additional Notes"; ""; "This should not be included"; ""])
  = Some (text ["### Fixed"; "- Fixed a bug"]).
Proof. reflexivity. Qed.

Example test_remove_html_comments :
  clean_content
    (text [""; "<!-- This is a comment -->"; "### Fixed"; "- Fixed a bug";
           "<!-- Another comment -->"; ""])
  = text ["### Fixed"; "- Fixed a bug"].
Proof. reflexivity. Qed.

Example test_remove_extra_whitespace :
  clean_content
    (text [""; "### Fixed"; ""; ""; "- Fixed a bug"; ""; ""; ""])
  = text ["### Fixed"; "- Fixed a bug"].
Proof. reflexivity. Qed.

Example test_parse_with_asterisk_bullets :
  parse_release_notes
    (text [""; "### Fixed"; "* Fixed a bug"; "* Fixed another bug"; ""])
  = [(lit "Fixed", [lit "Fixed a bug"; lit "Fixed another bug"])].
Proof. reflexivity. Qed.

Example test_parse_invalid_category_resets_context :
  parse_release_notes
    (text [""; "### Fixed"; "- Valid entry 1"; ""; "### Invalid Category";
           "- Should be ignored"; ""; "### Added"; "- Valid entry 2"; ""])
  = [(lit "Fixed", [lit "Valid entry 1"]); (lit "Added", [lit "Valid entry 2"])].
Proof. reflexivity. Qed.

Example test_parse_empty_content : parse_release_notes [] = [].
Proof. reflexivity. Qed.

Example test_validate_valid_notes :
  validate_release_notes
    (text [""; "## Release Notes"; ""; "### Fixed"; "- Fixed a bug"; ""])
  = (true, msg_valid, Some [(lit "Fixed", [lit "Fixed a bug"])]).
Proof. reflexivity. Qed.

Example test_validate_opt_out :
  validate_release_notes (text [""; "## Release Notes"; ""; "NONE"; ""])
  = (true, msg_opted_out, None).
Proof. reflexivity. Qed.

Example test_validate_empty_notes :
  validate_release_notes
    (text [""; "## Release Notes"; ""; "Some text but no categories"; ""])
  = (false, msg_no_category, None).
Proof. reflexivity. Qed.

Example test_validate_empty_category :
  validate_release_notes
    (text [""; "## Release Notes"; ""; "### Fixed"; ""; "### Added";
           "- Added something"; ""])
  = (false, lit "Categories Fixed have no entries", None).
Proof. reflexivity. Qed.

Example test_format_empty_prs : format_changelog_from_prs [] = [].
Proof. reflexivity. Qed.

End RepositoryTests.

(** ** Properties of the content cleaner *)

(** C2, as amended.  The cleaned content is the non-empty stripped lines of
    the text without its comments, one newline between two of them: it has
    no empty line, and nowhere two newlines in a row.  A run of blank lines
    of any length leaves no blank line behind. *)
Theorem clean_content_leaves_no_blank_line (content : str) :
  clean_content content =
    join [nl]
      (filter nonempty (map strip (split_nl (remove_comments content))))
  /\ forallb nonempty (split_nl (clean_content content)) =
       nonempty (clean_content content)
  /\ contains [nl; nl] (clean_content content) = false.
Proof.
  split; [apply clean_content_lines|].
  destruct (clean_content content) as [|c t] eqn:E.
  - split; reflexivity.
  - rewrite <- E.
    assert (N : clean_content content <> []) by (rewrite E; discriminate).
    pose proof (clean_content_split content N) as S.
    assert (A : forallb nonempty (split_nl (clean_content content)) = true).
    { rewrite S. apply forallb_filter_nonempty. }
    split.
    + rewrite A, E. reflexivity.
    + apply no_double_newline.
      destruct (split_nl (clean_content content)); [reflexivity|].
      simpl in A. apply andb_true_iff in A. apply A.
Qed.

(** C2, as stated, fails: of the two blank lines between [a] and [b] none
    remains, where the worded cleaner keeps one. *)
Lemma clean_content_blank_run_counterexample :
  clean_content (text ["a"; ""; ""; "b"]) = text ["a"; "b"]
  /\ clean_content_as_worded (text ["a"; ""; ""; "b"]) = text ["a"; ""; "b"]
  /\ ~ (forall content,
          clean_content content = clean_content_as_worded content).
Proof.
  split; [reflexivity|]. split; [reflexivity|].
  intros H. specialize (H (text ["a"; ""; ""; "b"])). discriminate H.
Qed.

(** C9, as amended.  Cleaning cleaned content changes nothing exactly when
    the cleaned content holds no HTML comment; removing the comments of a
    text can bring the two halves of a new one together. *)
Theorem clean_content_idempotent_iff (content : str) :
  clean_content (clean_content content) = clean_content content
  <-> has_comment (clean_content content) = false.
Proof.
  split.
  - intros H. destruct (has_comment (clean_content content)) eqn:C;
      [exfalso | reflexivity].
    pose proof (remove_comments_shorter _ C) as L1.
    pose proof (clean_content_length (clean_content content)) as L2.
    rewrite H in L2. lia.
  - apply clean_content_fixed.
Qed.

Lemma clean_content_idempotent_witness :
  has_comment
    (clean_content (text ["  ### Fixed <!-- note -->"; ""; ""; "- x  "]))
  = false
  /\ clean_content
       (clean_content (text ["  ### Fixed <!-- note -->"; ""; ""; "- x  "]))
     = clean_content (text ["  ### Fixed <!-- note -->"; ""; ""; "- x  "]).
Proof.
  split; [reflexivity|].
  apply (proj2 (clean_content_idempotent_iff
                  (text ["  ### Fixed <!-- note -->"; ""; ""; "- x  "]))).
  reflexivity.
Defined.

(** C9, as stated, fails: cleaning joins the two halves of a comment, and
    cleaning again removes it. *)
Lemma clean_content_not_idempotent :
  clean_content (lit "<!<!-- x -->-- y -->") = lit "<!-- y -->"
  /\ clean_content (clean_content (lit "<!<!-- x -->-- y -->")) = []
  /\ clean_content (clean_content (lit "<!<!-- x -->-- y -->"))
     <> clean_content (lit "<!<!-- x -->-- y -->").
Proof.
  split; [reflexivity|]. split; [reflexivity|]. discriminate.
Qed.

(** ** Properties of the opt-out detector *)

(** C6.  The detector answers true exactly when the whole cleaned content
    is the word NONE in some mix of cases; the listed inputs are opt-outs,
    and content that only holds the word, or holds headings and bullets,
    is not. *)
Theorem is_opt_out_exact :
  (forall content,
      is_opt_out content = true
      <-> Forall2 same_letter (lit "NONE") (clean_content content))
  /\ is_opt_out (lit "NONE") = true
  /\ is_opt_out (lit "none") = true
  /\ is_opt_out (lit "NoNe") = true
  /\ is_opt_out (lit "  NONE  ") = true
  /\ is_opt_out (lit "<!-- x --> NONE") = true
  /\ is_opt_out (lit "See NONE below") = false
  /\ is_opt_out (text ["### Fixed"; "- x"]) = false.
Proof.
  split; [exact is_opt_out_true|]. repeat split; reflexivity.
Qed.

(** ** Properties of the category parser and the validator *)

(** C3.  When the cleaned lines are [pre], an invalid heading [h], lines
    [mid] none of which is a valid heading, and [post]: the mapping after
    [mid] is the mapping after [pre], so [h] and [mid] add nothing to any
    category, and [post] is parsed from that mapping with no current
    category.  With the headings Fixed, InvalidName, Added each entry is
    under the valid heading it follows and the ones under InvalidName are
    nowhere. *)
Theorem invalid_heading_resets_category
  (content : str) (pre mid post : list str) (h : str) :
  split_nl (clean_content content) = pre ++ h :: mid ++ post ->
  is_invalid_heading h = true ->
  Forall (fun l => is_valid_heading l = false) mid ->
  parse_lines ([], None) (pre ++ h :: mid) =
    (fst (parse_lines ([], None) pre), None)
  /\ parse_release_notes content =
       fst (parse_lines (fst (parse_lines ([], None) pre), None) post)
  /\ parse_release_notes
       (text ["### Fixed"; "- a"; "### InvalidName"; "- b"; "* c";
              "### Added"; "- d"])
     = [(lit "Fixed", [lit "a"]); (lit "Added", [lit "d"])].
Proof.
  intros Hs Hh Hm.
  assert (Z : parse_lines ([], None) (pre ++ h :: mid) =
              (fst (parse_lines ([], None) pre), None)).
  { rewrite parse_lines_app. apply parse_lines_invalid_zone; assumption. }
  split; [exact Z|]. split; [|reflexivity].
  unfold parse_release_notes. rewrite Hs.
  replace (pre ++ h :: mid ++ post) with ((pre ++ h :: mid) ++ post)
    by (rewrite <- app_assoc; reflexivity).
  rewrite parse_lines_app, Z. reflexivity.
Qed.

Lemma invalid_heading_resets_category_witness :
  parse_release_notes
    (text ["### Fixed"; "- a"; "### InvalidName"; "- b"; "text"; "* c";
           "### Added"; "- d"])
  = fst (parse_lines ([(lit "Fixed", [lit "a"])], None)
           [lit "### Added"; lit "- d"]).
Proof.
  refine (proj1 (proj2 (invalid_heading_resets_category
    (text ["### Fixed"; "- a"; "### InvalidName"; "- b"; "text"; "* c";
           "### Added"; "- d"])
    [lit "### Fixed"; lit "- a"] [lit "- b"; lit "text"; lit "* c"]
    [lit "### Added"; lit "- d"] (lit "### InvalidName") _ _ _))).
  - reflexivity.
  - reflexivity.
  - repeat constructor.
Defined.

(** C8.  When the notes extracted from a PR body parse to a mapping in
    which some category has no entry, the validator answers invalid, with
    no mapping, and its message lists those categories, in the order of
    their headings, separated by a comma and a space. *)
Theorem validate_names_empty_categories (pr_body release_notes : str) :
  extract_release_notes_section pr_body = Some release_notes ->
  empty_categories (parse_release_notes release_notes) <> [] ->
  validate_release_notes pr_body =
    (false,
     lit "Categories "
     ++ join (lit ", ") (empty_categories (parse_release_notes release_notes))
     ++ lit " have no entries",
     None)
  /\ forall category,
       In category (empty_categories (parse_release_notes release_notes))
       <-> In (category, []) (parse_release_notes release_notes).
Proof.
  intros He Hn. split.
  - unfold validate_release_notes. rewrite He.
    destruct (is_opt_out release_notes) eqn:O.
    + apply opt_out_parses_empty in O. rewrite O in Hn.
      exfalso. apply Hn. reflexivity.
    + destruct (parse_release_notes release_notes) as [|ce d] eqn:P.
      * exfalso. apply Hn. reflexivity.
      * simpl is_empty. cbv iota.
        destruct (empty_categories (ce :: d)); [congruence | reflexivity].
  - intros category. unfold empty_categories. rewrite in_map_iff. split.
    + intros ([k v] & E & H). apply filter_In in H. destruct H as [H V].
      simpl in *. subst k. destruct v; [exact H | discriminate].
    + intros H. exists (category, []). split; [reflexivity|].
      apply filter_In. split; [exact H | reflexivity].
Qed.

Lemma validate_names_empty_categories_witness :
  validate_release_notes
    (text ["## Release Notes"; "### Fixed"; "### Added"; "- x";
           "### Removed"])
  = (false, lit "Categories Fixed, Removed have no entries", None).
Proof.
  refine (proj1 (validate_names_empty_categories
    (text ["## Release Notes"; "### Fixed"; "### Added"; "- x";
           "### Removed"])
    (text ["### Fixed"; "### Added"; "- x"; "### Removed"]) _ _)).
  - reflexivity.
  - discriminate.
Defined.

(** ** Properties of the section extractor *)

(** C10.  After lines in which the extractor finds no section, a last line
    [## Release Notes] with nothing behind it is no match: the extractor
    returns nothing and the validator reports the section as not found.
    With one whitespace character behind the phrase the heading is found,
    and its section is empty. *)
Theorem heading_needs_trailing_whitespace (pre : str) :
  ends_lines pre ->
  extract_release_notes_section pre = None ->
  extract_release_notes_section (pre ++ lit "## Release Notes") = None
  /\ validate_release_notes (pre ++ lit "## Release Notes") =
       (false, msg_not_found, None)
  /\ forall c, isspace c = true ->
       extract_release_notes_section (pre ++ lit "## Release Notes" ++ [c]) =
       Some [].
Proof.
  intros He Hn.
  assert (A : extract_release_notes_section (pre ++ lit "## Release Notes")
              = None).
  { apply (extract_app pre (lit "# Release Notes") He Hn). }
  split; [exact A|]. split.
  - unfold validate_release_notes. rewrite A. reflexivity.
  - intros c Hc.
    change (pre ++ lit "## Release Notes" ++ [c]) with
      (pre ++ "#"%char :: (lit "# Release Notes" ++ [c])).
    rewrite (extract_app pre (lit "# Release Notes" ++ [c]) He Hn).
    destruct c as [[] [] [] [] [] [] [] []];
      first [ discriminate Hc | reflexivity ].
Qed.

Lemma heading_needs_trailing_whitespace_witness :
  extract_release_notes_section
    (text ["Fixes the frobnicator."; ""; "## Checklist"; "- [x] tests"; ""]
     ++ lit "## Release Notes") = None
  /\ validate_release_notes
       (text ["Fixes the frobnicator."; ""; "## Checklist"; "- [x] tests"; ""]
        ++ lit "## Release Notes") = (false, msg_not_found, None).
Proof.
  assert (E : ends_lines
            (text ["Fixes the frobnicator."; ""; "## Checklist";
                   "- [x] tests"; ""])).
  { right. exists (text ["Fixes the frobnicator."; ""; "## Checklist";
                         "- [x] tests"]). reflexivity. }
  pose proof (heading_needs_trailing_whitespace
    (text ["Fixes the frobnicator."; ""; "## Checklist"; "- [x] tests"; ""])
    E eq_refl) as (A & B & _).
  split; [exact A | exact B].
Defined.

(** ** Properties of the aggregator *)

(** C4, as amended.  An entry gets the attribution of its PR exactly when
    it holds neither the number token nor the URL of that PR, so a line
    that has its attribution is left as it is.  Two PRs with different
    numbers that contribute the same entry text give two different lines,
    both kept, provided the text does not already name both PRs. *)
Theorem attribution_once_and_per_pr
  (pr1 pr2 : PR) (entry : str) (collected : list str) :
  number pr1 <> number pr2 ->
  names_pr pr1 entry && names_pr pr2 entry = false ->
  format_entry pr1 entry =
    (if names_pr pr1 entry then entry else entry ++ attribution pr1)
  /\ format_entry pr1 (format_entry pr1 entry) = format_entry pr1 entry
  /\ format_entry pr1 entry <> format_entry pr2 entry
  /\ In (format_entry pr1 entry)
       (append_new (format_entry pr2 entry)
          (append_new (format_entry pr1 entry) collected))
  /\ In (format_entry pr2 entry)
       (append_new (format_entry pr2 entry)
          (append_new (format_entry pr1 entry) collected))
  /\ append_new (format_entry pr2 entry)
       (append_new (format_entry pr1 entry) [])
     = [format_entry pr1 entry; format_entry pr2 entry]
  /\ format_changelog_from_prs
       [pr_fixing 123 "user1" "Fixed bug A";
        pr_fixing 124 "user1" "Fixed bug A"]
     = text
         ["### Fixed";
          "- Fixed bug A [#123](https://github.com/test/repo/pull/123) [user1](https://github.com/user1)";
          "- Fixed bug A [#124](https://github.com/test/repo/pull/124) [user1](https://github.com/user1)"].
Proof.
  intros Hn Hb.
  pose proof (format_entry_distinct pr1 pr2 entry Hn Hb) as D.
  split; [apply format_entry_rule|].
  split; [apply format_entry_idem|].
  split; [exact D|].
  split; [apply append_new_keeps, append_new_In|].
  split; [apply append_new_In|].
  split; [apply append_new_two, D | reflexivity].
Qed.

Lemma attribution_once_and_per_pr_witness :
  format_entry (pr_fixing 123 "user1" "Fixed bug A") (lit "Fixed bug A")
  <> format_entry (pr_fixing 124 "user1" "Fixed bug A") (lit "Fixed bug A").
Proof.
  refine (proj1 (proj2 (proj2 (attribution_once_and_per_pr
    (pr_fixing 123 "user1" "Fixed bug A")
    (pr_fixing 124 "user1" "Fixed bug A") (lit "Fixed bug A") [] _ _)))).
  - discriminate.
  - reflexivity.
Defined.

(** C4, as stated, fails: an entry text that names both PRs gets no
    attribution from either, the two lines are the same and one is kept. *)
Lemma same_text_two_prs_counterexample :
  number (pr_fixing 7 "ann" "Fixed bug A (#7, #8)")
  <> number (pr_fixing 8 "bob" "Fixed bug A (#7, #8)")
  /\ format_entry (pr_fixing 7 "ann" "Fixed bug A (#7, #8)")
       (lit "Fixed bug A (#7, #8)")
     = format_entry (pr_fixing 8 "bob" "Fixed bug A (#7, #8)")
         (lit "Fixed bug A (#7, #8)")
  /\ format_changelog_from_prs
       [pr_fixing 7 "ann" "Fixed bug A (#7, #8)";
        pr_fixing 8 "bob" "Fixed bug A (#7, #8)"]
     = text ["### Fixed"; "- Fixed bug A (#7, #8)"].
Proof.
  split; [discriminate|]. split; reflexivity.
Qed.

(** C7.  For every batch of PRs the lines of the output are, for each
    category of the canonical order that has an entry, its heading, one
    bullet line per entry and an empty line; the output, trimmed, is the
    blocks of these categories in that order with one empty line between
    two of them.  It is empty exactly when no category has an entry, and
    for no PR at all.  The order in which a mapping lists its categories
    plays no part: mappings with the same entries per category render
    alike. *)
Theorem render_in_canonical_order (prs : list PR) (d1 d2 : dict) :
  Forall (fun c => dict_get c d1 = dict_get c d2) category_order ->
  category_order =
    map lit ["Added"; "Changed"; "Deprecated"; "Removed"; "Fixed"; "Security"]
  /\ changelog_lines (fold_left collect_pr prs []) =
       flat_map
         (fun c => block_lines (fold_left collect_pr prs []) c ++ [[]])
         (filter (has_entries (fold_left collect_pr prs [])) category_order)
  /\ format_changelog_from_prs prs =
       join [nl; nl]
         (map (category_block (fold_left collect_pr prs []))
            (filter (has_entries (fold_left collect_pr prs []))
               category_order))
  /\ is_empty (format_changelog_from_prs prs) =
       is_empty
         (filter (has_entries (fold_left collect_pr prs [])) category_order)
  /\ format_changelog_from_prs [] = []
  /\ render d1 = render d2.
Proof.
  intros H.
  assert (T : tidy_dict (fold_left collect_pr prs [])).
  { apply collected_tidy. constructor. }
  pose proof (render_blocks _ T) as R.
  split; [reflexivity|]. split; [apply changelog_lines_blocks|].
  split; [exact R|]. split; [|split; [reflexivity | apply render_lookup, H]].
  unfold format_changelog_from_prs. rewrite R.
  destruct (filter (has_entries (fold_left collect_pr prs [])) category_order)
    as [|c cs] eqn:F; [reflexivity|].
  assert (C : Forall (fun c => has_entries (fold_left collect_pr prs []) c
                               = true) (c :: cs)).
  { rewrite <- F. apply filter_has_entries. }
  destruct (blocks_tidy _ (c :: cs) T) as [[Hs _] _];
    [discriminate | exact C |].
  destruct (join [nl; nl]
              (map (category_block (fold_left collect_pr prs [])) (c :: cs)));
    [congruence | reflexivity].
Qed.

Lemma render_in_canonical_order_witness :
  format_changelog_from_prs
    [pr_fixing 2 "bob" "Fixed bug B";
     {| number := 1; url := lit "u"; author := lit "ann";
        author_url := lit "a";
        body := text ["## Release Notes"; "### Security"; "- S";
                      "### Added"; "- A" ] |}]
  = text ["### Added"; "- A [#1](u) [ann](a)"; "";
          "### Fixed";
          "- Fixed bug B [#2](https://github.com/test/repo/pull/2) [bob](https://github.com/bob)";
          "";
          "### Security"; "- S [#1](u) [ann](a)"]
  /\ render [(lit "Fixed", [lit "x"]); (lit "Added", [lit "y"])]
     = render [(lit "Added", [lit "y"]); (lit "Fixed", [lit "x"])].
Proof.
  pose proof (render_in_canonical_order
    [pr_fixing 2 "bob" "Fixed bug B";
     {| number := 1; url := lit "u"; author := lit "ann";
        author_url := lit "a";
        body := text ["## Release Notes"; "### Security"; "- S";
                      "### Added"; "- A" ] |}]
    [(lit "Fixed", [lit "x"]); (lit "Added", [lit "y"])]
    [(lit "Added", [lit "y"]); (lit "Fixed", [lit "x"])]) as W.
  destruct W as (_ & _ & E & _ & _ & R).
  - repeat constructor.
  - split; [|exact R]. rewrite E. vm_compute. reflexivity.
Defined.

(** ** Properties of the changelog inserter *)

Section InserterProperties.

Variable Version : Type.
Variable parse_version : str -> option Version.
Variable version_gt : Version -> Version -> bool.


(** C1, on the code.  Whatever the version library, when it reads [0.9.0]
    and [1.0.0] and does not put the first above the second, the section of
    v0.9.0 is written right after the Unreleased heading, above the section
    of v1.0.0. *)
Theorem lower_version_lands_above
  (date entries : str) (v090 v100 : Version) :
  parse_version (lit "0.9.0") = Some v090 ->
  parse_version (lit "1.0.0") = Some v100 ->
  version_gt v090 v100 = false ->
  update_changelog parse_version version_gt
    (text ["## [Unreleased]"; "## [v1.0.0] - 2024-01-01"; "- first"])
    (lit "v0.9.0") date entries
  = Some
      (text ["## [Unreleased]"; ""; ""]
       ++ new_section (lit "v0.9.0") date (strip entries)
       ++ text ["## [v1.0.0] - 2024-01-01"; "- first"]).
Proof.
  intros P9 P1 G. unfold update_changelog, insert_position.
  change (lstrip_char "v" (lit "v0.9.0")) with (lit "0.9.0"). rewrite P9.
  replace (version_matches
             (text ["## [Unreleased]"; "## [v1.0.0] - 2024-01-01"; "- first"]))
    with [(16, lit "v1.0.0")] by (vm_compute; reflexivity).
  replace (search_start
             (text ["## [Unreleased]"; "## [v1.0.0] - 2024-01-01"; "- first"]))
    with 16 by (vm_compute; reflexivity).
  cbn [find_insert_position Nat.ltb Nat.leb].
  change (lstrip_char "v" (lit "v1.0.0")) with (lit "1.0.0").
  rewrite P1, G. reflexivity.
Qed.

End InserterProperties.



Lemma lower_version_lands_above_witness :
  update_changelog Release.parse Release.gt
    (text ["## [Unreleased]"; "## [v1.0.0] - 2024-01-01"; "- first"])
    (lit "v0.9.0") (lit "2025-01-15") (text ["### Fixed"; "- y"; ""])
  = Some
      (text ["## [Unreleased]"; "";
             "## [v0.9.0] - 2025-01-15"; ""; "### Fixed"; "- y"; "";
             "## [v1.0.0] - 2024-01-01"; "- first"]).
Proof.
  exact (lower_version_lands_above _ Release.parse Release.gt
           (lit "2025-01-15") (text ["### Fixed"; "- y"; ""])
           [0; 9; 0]%N [1; 0; 0]%N eq_refl eq_refl eq_refl).
Defined.

(** * Further properties *)

(** ** The section extractor *)

(** X1.  After lines in which the extractor finds no section, a heading
    line [## Release Notes], a text [sec] none of whose lines starts with
    two number signs and a whitespace character, and a next line that does:
    the section is [sec], trimmed, whether or not an empty line stands
    before the next heading. *)
Theorem extract_ends_at_next_heading (pre sec rest : str) (h : ascii) :
  ends_lines pre ->
  extract_release_notes_section pre = None ->
  no_level2_heading true (sec ++ [nl]) = true ->
  isspace h = true ->
  extract_release_notes_section
    (pre ++ lit "## Release Notes" ++ nl :: sec ++ nl :: lit "##" ++ h :: rest)
  = Some (strip sec).
Proof.
  intros He Hn Hs Hh.
  rewrite extract_after_heading by assumption. f_equal.
  change (sec ++ nl :: lit "##" ++ h :: rest) with
    (sec ++ [nl] ++ "#"%char :: "#"%char :: h :: rest).
  rewrite app_assoc.
  rewrite span_app_stop by reflexivity. cbn [fst snd].
  destruct (span_spec isspace (sec ++ [nl])) as [S A].
  destruct (span isspace (sec ++ [nl])) as [w r]. cbn [fst snd] in *.
  assert (E : ends_lines r).
  { apply (ends_lines_app_r w). rewrite <- S. right. exists sec. reflexivity. }
  rewrite S in Hs.
  pose proof (no_level2_heading_skip w r nl Hs) as Hr.
  change ("#"%char :: "#"%char :: h :: rest) with (lit "##" ++ h :: rest).
  rewrite (section_body_stops r rest h Hh _); [| |exact E | exact Hr].
  - rewrite <- (strip_app_nl sec), S. symmetry.
    apply strip_spaces_app, A.
  - intros N. subst r. rewrite app_nil_r in S. subst w.
    rewrite last_cons_default, last_last. reflexivity.
Qed.

Lemma extract_ends_at_next_heading_witness :
  extract_release_notes_section
    (text [""; "## Description"; "x"; ""]
     ++ lit "## Release Notes"
     ++ nl :: text [""; "### Fixed"; "- Fixed a bug ## not a heading"]
     ++ nl :: lit "##" ++ " "%char :: text ["Additional Notes"; ""; "more"])
  = Some (text ["### Fixed"; "- Fixed a bug ## not a heading"]).
Proof.
  refine (extract_ends_at_next_heading
            (text [""; "## Description"; "x"; ""])
            (text [""; "### Fixed"; "- Fixed a bug ## not a heading"])
            (text ["Additional Notes"; ""; "more"]) " "%char _ _ _ _).
  - right. exists (text [""; "## Description"; "x"]). reflexivity.
  - reflexivity.
  - reflexivity.
  - reflexivity.
Defined.

(** X2.  When no line behind the heading line starts with two number signs
    and a whitespace character, the section is all the text behind the
    heading line, trimmed. *)
Theorem extract_runs_to_end (pre sec : str) :
  ends_lines pre ->
  extract_release_notes_section pre = None ->
  no_level2_heading true sec = true ->
  extract_release_notes_section (pre ++ lit "## Release Notes" ++ nl :: sec)
  = Some (strip sec).
Proof.
  intros He Hn Hs.
  rewrite extract_after_heading by assumption. f_equal.
  destruct (span_spec isspace sec) as [S A].
  destruct (span isspace sec) as [w r]. cbn [fst snd] in *.
  rewrite S in Hs.
  pose proof (no_level2_heading_skip w r nl Hs) as Hr.
  rewrite section_body_all by exact Hr.
  rewrite S. symmetry. apply strip_spaces_app, A.
Qed.

Lemma extract_runs_to_end_witness :
  extract_release_notes_section
    (lit "## Release Notes" ++ nl :: text [""; "### Added"; "- y"; "### z"; ""])
  = Some (text ["### Added"; "- y"; "### z"]).
Proof.
  refine (extract_runs_to_end []
            (text [""; "### Added"; "- y"; "### z"; ""]) _ _ _).
  - left. reflexivity.
  - reflexivity.
  - reflexivity.
Defined.

(** X3.  A body no line of which starts with two number signs has no
    Release Notes section: the extractor returns nothing and the validator
    reports the section as not found. *)
Theorem extract_none_without_heading (pr_body : str) :
  Forall (fun l => startswith (lit "##") l = false) (split_nl pr_body) ->
  extract_release_notes_section pr_body = None
  /\ validate_release_notes pr_body = (false, msg_not_found, None).
Proof.
  intros F.
  assert (E : extract_release_notes_section pr_body = None).
  { unfold extract_release_notes_section.
    destruct (is_empty pr_body); [reflexivity|].
    rewrite search_release_notes_none; [reflexivity | |].
    - intros _. rewrite startswith_first_line.
      destruct (split_nl pr_body); [reflexivity | inversion F; assumption].
    - destruct (split_nl pr_body); [constructor | inversion F; assumption]. }
  split; [exact E|]. unfold validate_release_notes. rewrite E. reflexivity.
Qed.

Lemma extract_none_without_heading_witness :
  validate_release_notes
    (text ["Release Notes"; "- x"; " ## Release Notes"; "# Fixed"; "- y"])
  = (false, msg_not_found, None).
Proof.
  refine (proj2 (extract_none_without_heading
    (text ["Release Notes"; "- x"; " ## Release Notes"; "# Fixed"; "- y"])
    _)).
  vm_compute. repeat constructor.
Defined.

(** ** The content cleaner *)

(** X4.  The texts that cleaning leaves as they are: those without an HTML
    comment whose lines carry no whitespace at either end and, unless the
    text is empty, are not empty. *)
Theorem clean_content_fixed_points (content : str) :
  clean_content content = content
  <-> has_comment content = false
      /\ map strip (split_nl content) = split_nl content
      /\ forallb nonempty (split_nl content) = nonempty content.
Proof.
  split.
  - intros H.
    assert (C : has_comment content = false).
    { destruct (has_comment content) eqn:C; [exfalso | reflexivity].
      pose proof (remove_comments_shorter _ C).
      pose proof (clean_content_length content) as L.
      rewrite H in L. lia. }
    split; [exact C|].
    destruct content as [|c t]; [split; reflexivity|].
    assert (N : clean_content (c :: t) <> []) by (rewrite H; discriminate).
    pose proof (clean_content_split _ N) as S. rewrite H in S.
    pose proof (strip_lines_are_lines (remove_comments (c :: t))) as L.
    assert (F : Forall is_line (split_nl (c :: t))).
    { rewrite S. apply Forall_forall. intros x Hx. apply filter_In in Hx.
      rewrite Forall_forall in L. apply L, Hx. }
    split; [apply map_strip_lines, F|].
    rewrite S. apply forallb_filter_nonempty.
  - intros (C & M & F).
    rewrite clean_content_lines, (remove_comments_fixed _ C), M.
    destruct content as [|c t]; [reflexivity|].
    rewrite filter_all by exact F. apply join_split_nl.
Qed.

Lemma clean_content_fixed_points_witness :
  clean_content (text ["### Fixed"; "- a  b"; "* c"])
  = text ["### Fixed"; "- a  b"; "* c"].
Proof.
  apply (proj2 (clean_content_fixed_points
                  (text ["### Fixed"; "- a  b"; "* c"]))).
  repeat split.
Defined.

(** X5.  Cleaning never makes the text longer, and makes it shorter
    when it holds an HTML comment. *)
Theorem clean_content_never_longer (content : str) :
  List.length (clean_content content)
  + (if has_comment content then 1 else 0)
  <= List.length content.
Proof.
  pose proof (clean_content_length content) as L.
  destruct (has_comment content) eqn:C.
  - pose proof (remove_comments_shorter _ C). lia.
  - rewrite (remove_comments_fixed _ C) in L. lia.
Qed.

(** X6.  A comment whose text holds no [>], behind a text without [<]:
    the comment is removed whole, the text before it is kept, and the
    removal goes on behind the closing mark. *)
Theorem remove_comments_one_comment (a c b : str) :
  forallb (fun x => negb (Ascii.eqb "<" x)) a = true ->
  forallb (fun x => negb (Ascii.eqb ">" x)) c = true ->
  remove_comments (a ++ lit "<!--" ++ c ++ lit "-->" ++ b)
  = a ++ remove_comments b.
Proof.
  intros Ha Hc. rewrite remove_comments_plain by exact Ha.
  rewrite remove_comments_comment by exact Hc. reflexivity.
Qed.

Lemma remove_comments_one_comment_witness :
  remove_comments
    (lit "- kept " ++ lit "<!--" ++ text [" two"; "lines <b "] ++ lit "-->"
     ++ lit " tail <!-- open")
  = lit "- kept  tail <!-- open".
Proof.
  exact (remove_comments_one_comment (lit "- kept ")
           (text [" two"; "lines <b "]) (lit " tail <!-- open")
           eq_refl eq_refl).
Defined.

(** ** The category parser *)

(** X7.  The keys of the parsed mapping are distinct categories out of the
    six valid ones, so the mapping has at most six of them. *)
Theorem parse_release_notes_categories (content : str) :
  NoDup (keys (parse_release_notes content))
  /\ Forall (fun k => In k VALID_CATEGORIES) (keys (parse_release_notes content))
  /\ List.length (parse_release_notes content) <= 6.
Proof.
  destruct (parse_release_notes_keys content) as [N F].
  split; [exact N|]. split; [exact F|].
  replace (List.length (parse_release_notes content))
    with (List.length (keys (parse_release_notes content)))
    by apply length_map.
  change 6 with (List.length VALID_CATEGORIES).
  apply NoDup_incl_length; [exact N|].
  intros k Hk. rewrite Forall_forall in F. apply F, Hk.
Qed.

(** X8.  Every entry of the parsed mapping is a text without newline, not
    empty, with no whitespace at either end. *)
Theorem parse_release_notes_entries_ok (content : str) :
  Forall
    (fun ce =>
       Forall (fun e => e <> [] /\ strip e = e /\ no_nl e) (snd ce))
    (parse_release_notes content).
Proof. exact (parse_release_notes_entries content). Qed.

(** ** The validator *)

(** X9.  The validator returns a mapping only with the flag set and the
    message of valid notes; the mapping is then the parsed mapping of the
    extracted section, which is no opt-out, it is not empty, its categories
    are valid ones, and each has at least one entry, all well formed. *)
Theorem validate_mapping_only_when_valid
  (pr_body : str) (ok : bool) (msg : str) (categories : dict) :
  validate_release_notes pr_body = (ok, msg, Some categories) ->
  ok = true /\ msg = msg_valid /\ categories <> []
  /\ (exists release_notes,
        extract_release_notes_section pr_body = Some release_notes
        /\ is_opt_out release_notes = false
        /\ categories = parse_release_notes release_notes)
  /\ Forall
       (fun ce =>
          In (fst ce) VALID_CATEGORIES /\ snd ce <> []
          /\ Forall entry_ok (snd ce))
       categories.
Proof.
  unfold validate_release_notes.
  destruct (extract_release_notes_section pr_body) as [rn|] eqn:E;
    [|discriminate].
  destruct (is_opt_out rn) eqn:O; [discriminate|].
  destruct (parse_release_notes_keys rn) as [_ K].
  pose proof (parse_release_notes_entries rn) as Ok.
  destruct (parse_release_notes rn) as [|ce d] eqn:P; [discriminate|].
  cbn [is_empty].
  destruct (empty_categories (ce :: d)) as [|x xs] eqn:M; [|discriminate].
  intros H. inversion H; subst.
  split; [reflexivity|]. split; [reflexivity|]. split; [discriminate|].
  split; [exists rn; repeat split; auto|].
  apply empty_categories_nil in M. apply Forall_keys in K.
  unfold entries_ok in Ok. rewrite Forall_forall in *.
  intros x Hx. repeat split; [apply K | apply M | apply Ok]; exact Hx.
Qed.

Lemma validate_mapping_only_when_valid_witness :
  validate_release_notes (text ["## Release Notes"; "### Fixed"; "- a"; "- b"])
  = (true, msg_valid, Some [(lit "Fixed", [lit "a"; lit "b"])])
  /\ Forall
       (fun ce =>
          In (fst ce) VALID_CATEGORIES /\ snd ce <> []
          /\ Forall entry_ok (snd ce))
       [(lit "Fixed", [lit "a"; lit "b"])].
Proof.
  split; [reflexivity|].
  exact (proj2 (proj2 (proj2 (proj2 (validate_mapping_only_when_valid
    (text ["## Release Notes"; "### Fixed"; "- a"; "- b"])
    true msg_valid [(lit "Fixed", [lit "a"; lit "b"])] eq_refl))))).
Defined.

(** X10.  Notes that are an opt-out hold no category: their parsed mapping
    is empty, so nothing is lost when the opt-out is acted on before the
    parser is run. *)
Theorem opt_out_has_no_category (content : str) :
  is_opt_out content = true ->
  parse_release_notes content = []
  /\ List.length (clean_content content) = 4.
Proof.
  intros H. split; [apply opt_out_parses_empty, H|].
  apply is_opt_out_true in H.
  apply Forall2_length in H. symmetry. exact H.
Qed.

Lemma opt_out_has_no_category_witness :
  parse_release_notes (text ["<!-- nothing to tell -->"; "  none"; ""]) = [].
Proof.
  exact (proj1 (opt_out_has_no_category
                  (text ["<!-- nothing to tell -->"; "  none"; ""]) eq_refl)).
Defined.

(** ** The aggregator *)

(** X11.  Whatever the PRs, the collected mapping has distinct keys out of
    the six valid categories, and none of its lists holds a line twice or
    an empty line. *)
Theorem collected_mapping_invariants (prs : list PR) :
  NoDup (keys (fold_left collect_pr prs []))
  /\ Forall (fun k => In k VALID_CATEGORIES) (keys (fold_left collect_pr prs []))
  /\ Forall (fun ce => NoDup (snd ce) /\ Forall (fun e => e <> []) (snd ce))
       (fold_left collect_pr prs []).
Proof.
  assert (K : forall prs d,
             NoDup (keys d) /\ Forall (fun k => In k VALID_CATEGORIES) (keys d) ->
             NoDup (keys (fold_left collect_pr prs d))
             /\ Forall (fun k => In k VALID_CATEGORIES)
                  (keys (fold_left collect_pr prs d))).
  { intros ps. induction ps as [|p ps IH]; intros d H; [exact H|].
    cbn [fold_left]. apply IH, collect_pr_keys, H. }
  assert (N : forall prs d, lists_nodup d ->
                            lists_nodup (fold_left collect_pr prs d)).
  { intros ps. induction ps as [|p ps IH]; intros d H; [exact H|].
    cbn [fold_left]. apply IH, collect_pr_nodup, H. }
  destruct (K prs []) as [K1 K2]; [split; constructor|].
  split; [exact K1|]. split; [exact K2|].
  pose proof (N prs [] (Forall_nil _)) as N1.
  pose proof (collected_tidy prs [] (Forall_nil _)) as T.
  unfold lists_nodup in N1. unfold tidy_dict in T.
  rewrite Forall_forall in *. intros ce Hce. split; [apply N1, Hce|].
  specialize (T ce Hce). eapply Forall_impl; [|exact T].
  intros e [He _]. exact He.
Qed.

(** X12.  A PR without a Release Notes section, or whose section parses
    to no category (an opt-out among them), leaves the output as it is
    without that PR. *)
Theorem pr_without_category_adds_nothing (before after : list PR) (pr : PR) :
  match extract_release_notes_section (body pr) with
  | Some release_notes => parse_release_notes release_notes = []
  | None => True
  end ->
  format_changelog_from_prs (before ++ pr :: after)
  = format_changelog_from_prs (before ++ after).
Proof.
  intros H.
  assert (C : forall d, collect_pr d pr = d).
  { intros d. unfold collect_pr.
    destruct (extract_release_notes_section (body pr)) as [rn|];
      [|reflexivity].
    rewrite H. destruct (is_opt_out rn); reflexivity. }
  unfold format_changelog_from_prs. rewrite !fold_left_app.
  cbn [fold_left]. rewrite C. reflexivity.
Qed.

Lemma pr_without_category_adds_nothing_witness :
  format_changelog_from_prs
    [pr_fixing 1 "ann" "a";
     {| number := 2; url := lit "u"; author := lit "bob";
        author_url := lit "b";
        body := text ["## Release Notes"; "### Notes"; "- ignored"] |};
     pr_fixing 3 "cy" "c"]
  = format_changelog_from_prs [pr_fixing 1 "ann" "a"; pr_fixing 3 "cy" "c"].
Proof.
  exact (pr_without_category_adds_nothing [pr_fixing 1 "ann" "a"]
           [pr_fixing 3 "cy" "c"]
           {| number := 2; url := lit "u"; author := lit "bob";
              author_url := lit "b";
              body := text ["## Release Notes"; "### Notes"; "- ignored"] |}
           eq_refl).
Defined.

(** X13.  A PR record that comes a second time in the batch changes
    neither the collected mapping nor the output, whatever stands between
    and around its two places. *)
Theorem repeated_pr_counts_once (before between after : list PR) (pr : PR) :
  fold_left collect_pr (before ++ pr :: between ++ pr :: after) []
  = fold_left collect_pr (before ++ pr :: between ++ after) []
  /\ format_changelog_from_prs (before ++ pr :: between ++ pr :: after)
     = format_changelog_from_prs (before ++ pr :: between ++ after).
Proof.
  assert (E : fold_left collect_pr (before ++ pr :: between ++ pr :: after) []
              = fold_left collect_pr (before ++ pr :: between ++ after) []).
  { rewrite !fold_left_app. cbn [fold_left]. rewrite !fold_left_app.
    cbn [fold_left]. rewrite collect_pr_again. reflexivity. }
  split; [exact E|]. unfold format_changelog_from_prs. rewrite E. reflexivity.
Qed.

(** X14.  Parsing what was rendered gives the entries back.  For a mapping
    whose entries are well formed and whose rendering holds no HTML
    comment, the parser reads from the rendered text the categories that
    have an entry, in the canonical order, each with its entries as the
    bullet lines show them. *)
Theorem parse_rendered_changelog (d : dict) :
  entries_ok d ->
  has_comment (render d) = false ->
  parse_release_notes (render d)
  = map (fun c => (c, entries_of d c))
      (filter (has_entries d) category_order).
Proof.
  intros Hd Hm.
  rewrite (render_blocks d (entries_ok_tidy d Hd)) in *.
  assert (Hc : Forall (fun c => In c category_order)
                 (filter (has_entries d) category_order)).
  { apply Forall_forall. intros x Hx. apply filter_In in Hx. apply Hx. }
  pose proof (NoDup_filter (has_entries d) category_order_NoDup) as Hn.
  destruct (filter (has_entries d) category_order) as [|c cs] eqn:F;
    [reflexivity|].
  unfold parse_release_notes.
  rewrite clean_blocks by (assumption || discriminate).
  rewrite split_nl_join.
  - apply (parse_lines_blocks d (c :: cs) Hd Hc Hn [] None).
    apply Forall_forall. reflexivity.
  - unfold block_lines. discriminate.
  - pose proof (blocks_are_lines d (c :: cs) Hd Hc) as L.
    eapply Forall_impl; [|exact L]. intros l [[N _] _]. exact N.
Qed.

Lemma parse_rendered_changelog_witness :
  parse_release_notes
    (render [(lit "Fixed", [lit "x [#1](u) [a](b)"; lit "z"]);
             (lit "Other", [lit "o"]);
             (lit "Removed", []);
             (lit "Added", [lit "y"])])
  = [(lit "Added", [lit "y"]);
     (lit "Fixed", [lit "x [#1](u) [a](b)"; lit "z"])].
Proof.
  refine (parse_rendered_changelog
            [(lit "Fixed", [lit "x [#1](u) [a](b)"; lit "z"]);
             (lit "Other", [lit "o"]);
             (lit "Removed", []);
             (lit "Added", [lit "y"])] _ _).
  - unfold entries_ok.
    repeat match goal with
           | |- Forall _ [] => apply Forall_nil
           | |- Forall _ (snd _) => cbn [snd]
           | |- Forall _ (_ :: _) => apply Forall_cons
           | |- entry_ok _ => split; [discriminate | split; reflexivity]
           end.
  - reflexivity.
Defined.

(** ** The changelog inserter *)

Section InserterMoreProperties.

Variable Version : Type.
Variable parse_version : str -> option Version.
Variable version_gt : Version -> Version -> bool.



End InserterMoreProperties.



(** X17.  The header of a new section is one the scanner of existing
    headers matches, with the version as its group, when the version is
    not empty and holds no closing bracket and the date is four digits,
    two digits and two digits with hyphens between. *)
Theorem new_section_header_is_matched (version date entries rest : str) :
  version <> [] ->
  forallb is_not_bracket version = true ->
  strip_date date = Some [] ->
  match_version_header (new_section version date entries ++ rest)
  = Some (4 + List.length version + 4 + 10, version).
Proof.
  intros Hn Hb Hd. unfold match_version_header, new_section.
  rewrite <- !app_assoc. rewrite strip_prefix_app.
  change (lit "] - " ++ date ++ [nl; nl] ++ entries ++ [nl; nl] ++ rest)
    with ("]"%char
          :: (lit " - " ++ date ++ [nl; nl] ++ entries ++ [nl; nl] ++ rest)).
  rewrite span_until_bracket by exact Hb.
  destruct version as [|c v]; [congruence|].
  change ("]"%char
          :: (lit " - " ++ date ++ [nl; nl] ++ entries ++ [nl; nl] ++ rest))
    with (lit "] - " ++ date ++ [nl; nl] ++ entries ++ [nl; nl] ++ rest).
  rewrite strip_prefix_app.
  rewrite (strip_date_app date [] _ Hd). reflexivity.
Qed.

Lemma new_section_header_is_matched_witness :
  match_version_header
    (new_section (lit "v0.9.3") (lit "2025-01-15") (lit "- y")
     ++ lit "## [v0.9.2] - 2024-12-01")
  = Some (24, lit "v0.9.3").
Proof.
  refine (new_section_header_is_matched (lit "v0.9.3") (lit "2025-01-15")
            (lit "- y") (lit "## [v0.9.2] - 2024-12-01") _ _ _).
  - discriminate.
  - reflexivity.
  - reflexivity.
Defined.

(** X18.  The headers found in a document come in document order, by
    strictly growing start offset, and each is a match of the header
    pattern at its offset with its version as the group. *)
Theorem version_matches_in_document_order (content : str) :
  StronglySorted (fun a b => fst a < fst b) (version_matches content)
  /\ Forall
       (fun m =>
          exists n,
            match_version_header (skipn (fst m) content) = Some (S n, snd m))
       (version_matches content).
Proof.
  split; [apply finditer_sorted|].
  apply Forall_forall. intros [p g] H.
  destruct (finditer_In _ _ _ _ _ _ H) as [_ [n M]].
  rewrite Nat.sub_0_r in M. exists n. exact M.
Qed.

(** ** From the PR to the output *)

(** X19.  No entry is lost.  For a PR of the batch that has a section and
    is no opt-out, each entry of its parsed notes stands in the lines of
    the output as a bullet line, with the attribution the PR gives it,
    and the heading of its category stands there too. *)
Theorem every_entry_is_rendered
  (prs : list PR) (pr : PR) (release_notes category entry : str)
  (entries : list str) :
  In pr prs ->
  extract_release_notes_section (body pr) = Some release_notes ->
  is_opt_out release_notes = false ->
  In (category, entries) (parse_release_notes release_notes) ->
  In entry entries ->
  In (lit "### " ++ category) (changelog_lines (fold_left collect_pr prs []))
  /\ In (lit "- " ++ format_entry pr entry)
       (changelog_lines (fold_left collect_pr prs [])).
Proof.
  intros Hpr He Ho Hc Hen.
  destruct (in_split _ _ Hpr) as (before & after & ->).
  rewrite fold_left_app. cbn [fold_left].
  set (d0 := fold_left collect_pr before []).
  set (d := fold_left collect_pr after (collect_pr d0 pr)).
  assert (C : covered d pr (parse_release_notes release_notes)).
  { eapply covered_le; [apply dict_le_collect|].
    unfold collect_pr. rewrite He, Ho. apply add_categories_covered. }
  unfold covered in C. rewrite Forall_forall in C.
  destruct (C _ Hc) as (l & G & F). cbn [fst snd] in *.
  rewrite Forall_forall in F. specialize (F _ Hen).
  assert (K : In category category_order).
  { destruct (parse_release_notes_keys release_notes) as [_ K].
    rewrite Forall_forall in K. apply K. unfold keys.
    apply in_map_iff. exists (category, entries). split; [reflexivity|exact Hc]. }
  assert (L : forall x,
             In x ((lit "### " ++ category)
                   :: map (fun e => lit "- " ++ e) l) ->
             In x (changelog_lines d)).
  { intros x Hx. unfold changelog_lines. apply in_flat_map.
    exists category. split; [exact K|].
    unfold category_lines. rewrite G.
    destruct l as [|e0 l0]; [contradiction|].
    destruct Hx as [Hx | Hx]; [left; exact Hx|].
    right. apply in_or_app. left. exact Hx. }
  split; apply L.
  - left. reflexivity.
  - right. apply in_map_iff. exists (format_entry pr entry).
    split; [reflexivity | exact F].
Qed.

Lemma every_entry_is_rendered_witness :
  In (lit "- b [#2](u) [bob](v)")
    (changelog_lines
       (fold_left collect_pr
          [pr_fixing 1 "ann" "a";
           {| number := 2; url := lit "u"; author := lit "bob";
              author_url := lit "v";
              body := text ["## Release Notes"; "### Fixed"; "### Added";
                            "- b"] |}]
          [])).
Proof.
  refine (proj2 (every_entry_is_rendered
    [pr_fixing 1 "ann" "a";
     {| number := 2; url := lit "u"; author := lit "bob";
        author_url := lit "v";
        body := text ["## Release Notes"; "### Fixed"; "### Added"; "- b"] |}]
    {| number := 2; url := lit "u"; author := lit "bob";
       author_url := lit "v";
       body := text ["## Release Notes"; "### Fixed"; "### Added"; "- b"] |}
    (text ["### Fixed"; "### Added"; "- b"]) (lit "Added") (lit "b")
    [lit "b"] _ _ _ _ _)).
  - right. left. reflexivity.
  - reflexivity.
  - reflexivity.
  - right. left. reflexivity.
  - left. reflexivity.
Defined.
